(** * inject-cordova-index: a shallow embedding and its properties

    The module [src/inject-cordova-index.js] post-processes the HTML entry
    point of a Cordova application.  It reads four fragments out of an
    injection template with regular expressions, composes a
    Content-Security-Policy meta tag, and chains [gulp-replace] steps in a
    [lazypipe].

    JavaScript strings are modelled by [string]; the characters are the 8-bit
    range, in which the line terminators excluded by the regular-expression
    dot are LF and CR. *)

From Stdlib Require Import String Ascii List Bool Arith Lia.
Import ListNotations.
Open Scope string_scope.

(** ** Strings *)

(** The double-quote character, as a one-character string. *)
Definition dq : string := String "034"%char EmptyString.

(** [s.slice(n)] *)
Fixpoint drop (n : nat) (s : string) : string :=
  match n, s with
  | O, _ => s
  | S _, EmptyString => EmptyString
  | S k, String _ s' => drop k s'
  end.

(** [s.slice(0, n)] *)
Fixpoint take (n : nat) (s : string) : string :=
  match n, s with
  | O, _ => EmptyString
  | S _, EmptyString => EmptyString
  | S k, String c s' => String c (take k s')
  end.

(** [s.indexOf(pat)] *)
Fixpoint indexOf (pat s : string) : option nat :=
  if prefix pat s then Some 0
  else match s with
       | EmptyString => None
       | String _ s' => option_map S (indexOf pat s')
       end.

(** [s.lastIndexOf(pat)] *)
Fixpoint lastIndexOf (pat s : string) : option nat :=
  match s with
  | EmptyString => if prefix pat s then Some 0 else None
  | String _ s' =>
      match lastIndexOf pat s' with
      | Some j => Some (S j)
      | None => if prefix pat s then Some 0 else None
      end
  end.

(** [Array.prototype.join] on an array of strings. *)
Fixpoint join (sep : string) (l : list string) : string :=
  match l with
  | [] => EmptyString
  | [x] => x
  | x :: l' => x ++ sep ++ join sep l'
  end.

(** [String.prototype.split] with a non-empty string separator: the chunks
    between the successive, non-overlapping occurrences of [sep], scanning
    from the left.  [skip] counts the characters of the occurrence in
    progress; the result is the chunk in progress and the later chunks. *)
Fixpoint split_go (sep : string) (skip : nat) (s : string) : string * list string :=
  match s with
  | EmptyString => (EmptyString, [])
  | String c s' =>
      match skip with
      | S k => split_go sep k s'
      | O =>
          if prefix sep s
          then let (h, t) := split_go sep (String.length sep - 1) s' in (EmptyString, h :: t)
          else let (h, t) := split_go sep 0 s' in (String c h, t)
      end
  end.

Definition split (sep s : string) : list string :=
  let (h, t) := split_go sep 0 s in h :: t.

(** ** Regular expressions

    The patterns of the module are sequences of literal characters and of
    greedy starred character classes, at most one of them in a capturing
    group.  [match_here] is the backtracking matcher anchored at the head of
    the input; it returns the captures and the input left after the match. *)

Inductive re_item : Type :=
| Chr (c : ascii)               (* a literal character *)
| Star (cls : ascii -> bool)    (* a starred class, greedy *)
| Group (cls : ascii -> bool).  (* a starred class in a capturing group *)

Definition regex := list re_item.

(** [\s\S] *)
Definition any_char (c : ascii) : bool := true.

(** The dot: any character but a line terminator. *)
Definition dot (c : ascii) : bool :=
  negb (Ascii.eqb c "010"%char || Ascii.eqb c "013"%char).

(** A literal space, written [\ ] in the source. *)
Definition space (c : ascii) : bool := Ascii.eqb c " "%char.

Fixpoint lit (s : string) : regex :=
  match s with
  | EmptyString => []
  | String c s' => Chr c :: lit s'
  end.

(** Greedy iteration of a class followed by the continuation [k]: the longest
    run is tried first, then shorter ones.  Returns the run and [k]'s result. *)
Fixpoint greedy {A : Type} (cls : ascii -> bool) (k : string -> option A)
         (s : string) : option (string * A) :=
  match s with
  | String c s' =>
      if cls c
      then match greedy cls k s' with
           | Some (w, r) => Some (String c w, r)
           | None => option_map (pair EmptyString) (k s)
           end
      else option_map (pair EmptyString) (k s)
  | EmptyString => option_map (pair EmptyString) (k s)
  end.

Fixpoint match_here (re : regex) (s : string) {struct re}
  : option (list string * string) :=
  match re with
  | [] => Some ([], s)
  | Chr c :: re' =>
      match s with
      | String c' s' => if Ascii.eqb c c' then match_here re' s' else None
      | EmptyString => None
      end
  | Star cls :: re' => option_map snd (greedy cls (match_here re') s)
  | Group cls :: re' =>
      match greedy cls (match_here re') s with
      | Some (w, (caps, r)) => Some (w :: caps, r)
      | None => None
      end
  end.

(** The result array of [RegExp.prototype.exec]: element 0 is [matched],
    elements 1.. are [groups], and [index] is its index property. *)
Record match_result : Type := MatchResult {
  index : nat;
  matched : string;
  groups : list string
}.

(** Leftmost match: the start positions are tried from [i] on. *)
Fixpoint exec_from (re : regex) (i : nat) (s : string) : option match_result :=
  match match_here re s with
  | Some (caps, r) =>
      Some (MatchResult i (take (String.length s - String.length r) s) caps)
  | None =>
      match s with
      | EmptyString => None
      | String _ s' => exec_from re (S i) s'
      end
  end.

Definition exec (re : regex) (s : string) : option match_result :=
  exec_from re 0 s.

(** [m[1]] *)
Definition group1 (m : match_result) : string := nth 0 (groups m) EmptyString.

(** [GetSubstitution] for a pattern without capture groups: [$$] is a dollar,
    [$&] the match, [$`] the text before it and [$'] the text after it; every
    other character, a dollar before a digit too, is copied. *)
Fixpoint GetSubstitution (mtch before after repl : string) : string :=
  match repl with
  | EmptyString => EmptyString
  | String c r =>
      if Ascii.eqb c "$"%char then
        match r with
        | EmptyString => String c EmptyString
        | String d r' =>
            if Ascii.eqb d "$"%char then String "$"%char (GetSubstitution mtch before after r')
            else if Ascii.eqb d "&"%char then mtch ++ GetSubstitution mtch before after r'
            else if Ascii.eqb d "`"%char then before ++ GetSubstitution mtch before after r'
            else if Ascii.eqb d "'"%char then after ++ GetSubstitution mtch before after r'
            else String c (GetSubstitution mtch before after r)
        end
      else String c (GetSubstitution mtch before after r)
  end.

(** [str.replace(re, repl)] for a regular expression without the [g] flag and
    a string replacement. *)
Definition replace_regexp (re : regex) (repl str : string) : string :=
  match exec re str with
  | None => str
  | Some m =>
      let before := take (index m) str in
      let after := drop (index m + String.length (matched m)) str in
      before ++ GetSubstitution (matched m) before after repl ++ after
  end.

(** ** gulp-replace

    On the contents of a file, [replace(search, replacement)] is
    [contents.replace(search, replacement)] when [search] is a regular
    expression and [contents.split(search).join(replacement)] when it is a
    string. *)
Inductive pattern : Type :=
| PString (s : string)
| PRegExp (re : regex).

Definition replace (search : pattern) (replacement : string) (contents : string) : string :=
  match search with
  | PRegExp re => replace_regexp re replacement contents
  | PString s => join replacement (split s contents)
  end.

(** ** Errors and the file system *)

(** What the module can throw: its own [new Error(message)], the error of
    [fs.readFileSync] on a path without a file, and the error of a reference
    to an identifier that is bound nowhere. *)
Inductive exn : Type :=
| Error (message : string)
| ENOENT (path : string)
| ReferenceError (identifier : string).

Inductive result (A : Type) : Type :=
| Ok (a : A)
| Throw (e : exn).
Arguments Ok {A} a.
Arguments Throw {A} e.

Definition bind {A B : Type} (r : result A) (k : A -> result B) : result B :=
  match r with
  | Ok a => k a
  | Throw e => Throw e
  end.

Notation "x <- r ;; k" := (bind r (fun x => k))
  (at level 61, r at next level, right associativity).

(** The files, by path: [None] where there is no file.  A read that fails
    otherwise (a directory, a file without permission) is not in the model. *)
Definition filesystem := string -> option string.

(** [String(fs.readFileSync(path))]: the contents, or the error thrown for a
    path without a file. *)
Definition readFileSync (fs : filesystem) (path : string) : result string :=
  match fs path with
  | Some contents => Ok contents
  | None => Throw (ENOENT path)
  end.

(** ** The module *)

Definition DEFAULT_SOURCE : string := "index.html".

(** The object returned by [extractTextToInject]. *)
Record fragments : Type := Fragments {
  headStart : string;
  headEnd : string;
  bodyStart : string;
  bodyEnd : string
}.

(** The pattern of a delimiter (lines 56 to 59): the opening tag, a group
    that takes any characters, the closing tag. *)
Definition open_tag (tag : string) : string := "<" ++ tag ++ ">".
Definition close_tag (tag : string) : string := "</" ++ tag ++ ">".
Definition tag_regex (tag : string) : regex :=
  (lit (open_tag tag) ++ [Group any_char] ++ lit (close_tag tag))%list.

(** The two messages of [extractTextToInject] (lines 53 and 63 to 65). *)
Definition not_found_message (injectionFilePath : string) : string :=
  "File " ++ injectionFilePath ++ " not found !".

Definition bad_injection_message (injectionFilePath : string) : string :=
  "Bad injection file. Required patterns do no match (<head-end>/<body-start>/<body-end> !!!! Please ensure to use a well formatted injextion file (here we use: '"
  ++ injectionFilePath ++ "')".

(** [extractTextToInject] (lines 49 to 74): the read, the guard on an empty
    text, the four searches, the guard on a search without a match. *)
Definition extractTextToInject (fs : filesystem) (injectionFilePath : string)
  : result fragments :=
  injectionText <- readFileSync fs injectionFilePath ;;
  match injectionText with
  | EmptyString => Throw (Error (not_found_message injectionFilePath))
  | String _ _ =>
      match exec (tag_regex "head-start") injectionText,
            exec (tag_regex "head-end") injectionText,
            exec (tag_regex "body-start") injectionText,
            exec (tag_regex "body-end") injectionText with
      | Some headStart, Some headEnd, Some bodyStart, Some bodyEnd =>
          Ok (Fragments (group1 headStart) (group1 headEnd)
                        (group1 bodyStart) (group1 bodyEnd))
      | _, _, _, _ => Throw (Error (bad_injection_message injectionFilePath))
      end
  end.

(** An object literal with string keys: the entries in insertion order, which
    is the order of [Object.keys]. *)
Definition object := list (string * string).

Definition keys (o : object) : list string := map fst o.

Fixpoint get (o : object) (key : string) : string :=
  match o with
  | [] => EmptyString
  | (k, v) :: o' => if String.eqb k key then v else get o' key
  end.

(** A parameter with the default value [[]]: [None] is [undefined]. *)
Definition or_empty (a : option (list string)) : list string :=
  match a with
  | Some l => l
  | None => []
  end.

(** The object [cspRules] that [createMetaCsp] builds from its arguments
    (lines 84 to 111). *)
Definition cspRules (source : string)
           (connectSrc defaultSrc frameSrc : option (list string)) : object :=
  let connectSrc := or_empty connectSrc in
  let defaultSrc := or_empty defaultSrc in
  let frameSrc := or_empty frameSrc in
  let cspConnectSrc :=
    (["self:"; if String.eqb source DEFAULT_SOURCE then "file:" else source]
     ++ connectSrc)%list in
  let cspDefaultSrc :=
    (["https://www.google-analytics.com"; "https://www.youtube.com";
      "https://s.ytimg.com"] ++ defaultSrc)%list in
  let cspFrameSrc := (["https://www.youtube.com"] ++ frameSrc)%list in
  [("default-src",
    "'self' data: gap: https://ssl.gstatic.com 'unsafe-eval' 'unsafe-inline' "
    ++ join " " cspDefaultSrc);
   ("media-src", "data: *");
   ("img-src", "data: blob: *");
   ("font-src", "data: 'self' https://fonts.gstatic.com");
   ("style-src", "'self' 'unsafe-inline' https://fonts.googleapis.com");
   ("connect-src", join " " cspConnectSrc);
   ("frame-src", join " " cspFrameSrc);
   ("child-src", join " " cspFrameSrc)].

(** [createMetaCsp] (lines 83 to 117). *)
Definition createMetaCsp (source : string)
           (connectSrc defaultSrc frameSrc : option (list string)) : string :=
  let cspRules := cspRules source connectSrc defaultSrc frameSrc in
  let csp := join ";" (map (fun key => key ++ " " ++ get cspRules key) (keys cspRules)) in
  "<meta http-equiv=" ++ dq ++ "Content-Security-Policy" ++ dq
  ++ " content=" ++ dq ++ csp ++ dq ++ "/>".

(** *** lazypipe

    A stream stage is modelled by what it does to the contents of an HTML
    file.  A lazypipe is the list of its steps; a step is a function that
    creates a stage and is only called when the pipeline is built.  Building
    calls the steps in order, the first throw aborting, and combines the
    stages. *)
Definition stream := string -> string.
Definition step := filesystem -> result stream.
Definition lazypipe := list step.

Fixpoint build (fs : filesystem) (lp : lazypipe) : result stream :=
  match lp with
  | [] => Ok (fun contents => contents)
  | t :: lp' =>
      first <- t fs ;;
      rest <- build fs lp' ;;
      Ok (fun contents => rest (first contents))
  end.

(** [gulp-size] reports and passes the files on; [gulp-filter] and its
    [restore] select the HTML files, whose contents the stages are about. *)
Definition size : stream := fun contents => contents.
Definition htmlFilter : stream := fun contents => contents.
Definition htmlFilter_restore : stream := fun contents => contents.

Definition pure_step (s : stream) : step := fun _ => Ok s.

(** The base tag pattern (line 31): [<base], spaces, [href=], a quote, a
    greedy dot star, a quote, spaces, [>]. *)
Definition base_regex : regex :=
  (lit "<base" ++ [Star space] ++ lit ("href=" ++ dq) ++ [Star dot]
   ++ lit dq ++ [Star space] ++ lit ">")%list.

Definition cordova_script_placeholder : string := "<!-- inject:cordova-script -->".
Definition cordova_script_tag : string :=
  "<script src=" ++ dq ++ "cordova.js" ++ dq ++ " async></script>".
Definition cordova_csp_placeholder : string := "<!-- inject:cordova-csp -->".

(** The four stages of [injectDeviceReadyDetection] (lines 42 to 45), in
    order. *)
Definition inject_headStart (t : fragments) : stream :=
  replace (PRegExp (lit "<head>")) ("<head>" ++ headStart t).
Definition inject_headEnd (t : fragments) : stream :=
  replace (PRegExp (lit "</head>")) (headEnd t ++ "</head>").
Definition inject_bodyStart (t : fragments) : stream :=
  replace (PRegExp (lit "<body>")) ("<body>" ++ bodyStart t).
Definition inject_bodyEnd (t : fragments) : stream :=
  replace (PRegExp (lit "</body>")) (bodyEnd t ++ "</body>").

(** The template is read when [injectDeviceReadyDetection] is called; the
    lazypipe it returns holds the four replacements and a size report. *)
Definition injectDeviceReadyDetection (fs : filesystem) (injectionFilePath : string)
  : result lazypipe :=
  textToInject <- extractTextToInject fs injectionFilePath ;;
  Ok [pure_step (inject_headStart textToInject);
      pure_step (inject_headEnd textToInject);
      pure_step (inject_bodyStart textToInject);
      pure_step (inject_bodyEnd textToInject);
      pure_step size].

(** The later stages of [injectIndex] (lines 31 to 33). *)
Definition strip_base : stream := replace (PRegExp base_regex) EmptyString.
Definition inject_script : stream :=
  replace (PString cordova_script_placeholder) cordova_script_tag.
Definition inject_csp (meta : string) : stream :=
  replace (PString cordova_csp_placeholder) meta.

(** The argument of [injectIndex]; a field is [None] when the object does not
    have it. *)
Record options : Type := Options {
  connectSrc : option (list string);
  defaultSrc : option (list string);
  frameSrc : option (list string);
  source : option string
}.

Section InjectIndex.

(** [require.resolve('./index.html.inject')] *)
Variable injectionFilePath : string.

(** [injectIndex(arg)] (lines 25 to 36), [arg] being [None] when the function
    is called without an argument.  The parameter is a destructuring pattern
    with the default value [options], an identifier that neither the module
    nor Node binds: evaluating it throws.  The function only chains steps;
    the second step calls [injectDeviceReadyDetection] and builds its
    lazypipe at once. *)
Definition injectIndex (arg : option options) : result lazypipe :=
  o <- match arg with
       | Some o => Ok o
       | None => Throw (ReferenceError "options")
       end ;;
  let source := match source o with
                | Some s => s
                | None => DEFAULT_SOURCE
                end in
  Ok [pure_step htmlFilter;
      (fun fs => lp <- injectDeviceReadyDetection fs injectionFilePath ;; build fs lp);
      pure_step strip_base;
      pure_step inject_script;
      (fun _ => Ok (inject_csp
                      (createMetaCsp source (connectSrc o) (defaultSrc o) (frameSrc o))));
      pure_step size;
      pure_step htmlFilter_restore].

End InjectIndex.

(** ** Notions used by the statements *)

(** The input is at its end or at a character outside the class: a loop
    over the class stops there. *)
Definition stops (cls : ascii -> bool) (s : string) : bool :=
  match s with
  | EmptyString => true
  | String c _ => negb (cls c)
  end.

(** The text between the first opening tag and the last closing tag after it. *)
Definition region_last (tag text : string) : option string :=
  match indexOf (open_tag tag) text with
  | None => None
  | Some i =>
      let rest := drop (i + String.length (open_tag tag)) text in
      match lastIndexOf (close_tag tag) rest with
      | None => None
      | Some j => Some (take j rest)
      end
  end.

(** The inner text of the first region: from the first opening tag to the
    first closing tag after it. *)
Definition region_first (tag text : string) : option string :=
  match indexOf (open_tag tag) text with
  | None => None
  | Some i =>
      let rest := drop (i + String.length (open_tag tag)) text in
      match indexOf (close_tag tag) rest with
      | None => None
      | Some j => Some (take j rest)
      end
  end.

(** The tag occurs: an opening tag with a closing tag somewhere after it. *)
Definition has_region (tag text : string) : Prop :=
  exists pre inner post,
    text = pre ++ open_tag tag ++ inner ++ close_tag tag ++ post.

(** The two failures of extraction, by the message thrown. *)
Definition TemplateNotFoundError (path : string) : exn :=
  Error (not_found_message path).
Definition MalformedTemplateError (path : string) : exn :=
  Error (bad_injection_message path).

Definition delimiter_tags : list string :=
  ["head-start"; "head-end"; "body-start"; "body-end"].

(** Every character of the string is in the class. *)
Definition all_chars (cls : ascii -> bool) (s : string) : bool :=
  forallb cls (list_ascii_of_string s).

Definition quote (c : ascii) : bool := Ascii.eqb c "034"%char.

(** The string goes on with spaces and then [>]. *)
Fixpoint spaces_then_gt (s : string) : bool :=
  match s with
  | EmptyString => false
  | String c s' => if space c then spaces_then_gt s' else Ascii.eqb c ">"%char
  end.

(** The string starts with a quote, spaces and [>]: the end of a base tag. *)
Definition closing_here (s : string) : bool :=
  match s with
  | EmptyString => false
  | String c s' => quote c && spaces_then_gt s'
  end.

(** No end of a base tag starts before the first line terminator of the
    string. *)
Fixpoint no_closing_on_line (s : string) : bool :=
  match s with
  | EmptyString => true
  | String c s' =>
      if dot c then negb (closing_here s) && no_closing_on_line s' else true
  end.

(** The four stages of [injectDeviceReadyDetection] with the literal of
    their pattern and their replacement. *)
Definition fragment_steps (t : fragments) : list (string * string * stream) :=
  [("<head>", "<head>" ++ headStart t, inject_headStart t);
   ("</head>", headEnd t ++ "</head>", inject_headEnd t);
   ("<body>", "<body>" ++ bodyStart t, inject_bodyStart t);
   ("</body>", bodyEnd t ++ "</body>", inject_bodyEnd t)].

(** The four stages in the order of the lazypipe. *)
Definition inject_fragments (t : fragments) : stream :=
  fun contents =>
    inject_bodyEnd t (inject_bodyStart t (inject_headEnd t (inject_headStart t contents))).

(** The tail of the pattern of the base tag: the closing quote, spaces, [>]. *)
Definition base_tail : regex := (lit dq ++ [Star space] ++ lit ">")%list.

(** [e] occurs in [s]. *)
Definition occurs_in (e s : string) : Prop := exists a b, s = a ++ e ++ b.

(** No dollar in the string: a replacement without a dollar pattern. *)
Definition plain (s : string) : bool :=
  all_chars (fun c => negb (Ascii.eqb c "$"%char)) s.

(** [inner] is the inner text of a region of the tag that starts at the first
    opening tag of the text and whose closing tag is the only closing tag
    after that opening tag. *)
Definition delimits (tag text inner : string) : Prop :=
  exists pre post,
    text = pre ++ open_tag tag ++ inner ++ close_tag tag ++ post
    /\ indexOf (open_tag tag) text = Some (String.length pre)
    /\ indexOf (close_tag tag) (inner ++ close_tag tag ++ post)
       = Some (String.length inner)
    /\ lastIndexOf (close_tag tag) (inner ++ close_tag tag ++ post)
       = Some (String.length inner).

(** The [source] of the options, or its default value (line 25). *)
Definition source_or_default (o : options) : string :=
  match source o with
  | Some s => s
  | None => DEFAULT_SOURCE
  end.

(** The stages that change the contents, in the order of the lazypipe of
    [injectIndex] (lines 30 to 33). *)
Definition pipeline (t : fragments) (meta : string) : stream :=
  fun contents =>
    inject_csp meta (inject_script (strip_base (inject_fragments t contents))).

(** * Properties *)

(** ** Strings *)

Section StringFacts.

Lemma app_empty_r (s : string) : s ++ EmptyString = s.
Proof. induction s as [|c s IH]; simpl; [reflexivity | now rewrite IH]. Qed.

Lemma app_assoc_s (a b c : string) : (a ++ b) ++ c = a ++ b ++ c.
Proof. induction a as [|x a IH]; simpl; [reflexivity | now rewrite IH]. Qed.

Lemma length_app (a b : string) :
  String.length (a ++ b) = String.length a + String.length b.
Proof. induction a as [|x a IH]; simpl; [reflexivity | now rewrite IH]. Qed.

Lemma prefix_empty (s : string) : prefix EmptyString s = true.
Proof. now destruct s. Qed.

Lemma prefix_app (p s : string) : prefix p (p ++ s) = true.
Proof.
  induction p as [|c p IH]; simpl; [apply prefix_empty|].
  destruct (ascii_dec c c) as [_|n]; [exact IH | now elim n].
Qed.

Lemma prefix_split (p s : string) :
  prefix p s = true -> s = p ++ drop (String.length p) s.
Proof.
  revert s; induction p as [|c p IH]; intros s H; simpl.
  - reflexivity.
  - destruct s as [|d s]; simpl in H; [discriminate|].
    destruct (ascii_dec c d) as [e|_]; [|discriminate].
    subst d. now rewrite <- (IH s H).
Qed.

Lemma prefix_cons (c d : ascii) (p s : string) :
  prefix (String c p) (String d s) = Ascii.eqb c d && prefix p s.
Proof.
  simpl. destruct (ascii_dec c d) as [e|n].
  - subst. now rewrite Ascii.eqb_refl.
  - apply Ascii.eqb_neq in n. now rewrite n.
Qed.

Lemma prefix_app_long (p x y : string) :
  String.length p <= String.length x -> prefix p (x ++ y) = prefix p x.
Proof.
  revert x; induction p as [|c p IH]; intros x H.
  - now rewrite !prefix_empty.
  - destruct x as [|d x]; simpl in H; [lia|].
    change (String d x ++ y) with (String d (x ++ y)).
    rewrite !prefix_cons, IH by lia. reflexivity.
Qed.

Lemma take_drop (n : nat) (s : string) : take n s ++ drop n s = s.
Proof.
  revert s; induction n as [|n IH]; intros [|c s]; simpl; try reflexivity.
  now rewrite IH.
Qed.

Lemma take_app (a b : string) : take (String.length a) (a ++ b) = a.
Proof. induction a as [|c a IH]; simpl; [now destruct b | now rewrite IH]. Qed.

Lemma drop_app (a b : string) : drop (String.length a) (a ++ b) = b.
Proof. induction a as [|c a IH]; simpl; [reflexivity | exact IH]. Qed.

Lemma drop_app_le (n : nat) (a b : string) :
  n <= String.length a -> drop n (a ++ b) = drop n a ++ b.
Proof.
  revert a; induction n as [|n IH]; intros a H; [reflexivity|].
  destruct a as [|c a]; simpl in *; [lia | apply IH; lia].
Qed.

Lemma drop_drop (n m : nat) (s : string) : drop n (drop m s) = drop (m + n) s.
Proof.
  revert s; induction m as [|m IH]; intros s; [reflexivity|].
  destruct s as [|c s]; simpl; [now destruct n | apply IH].
Qed.

Lemma length_drop (n : nat) (s : string) :
  String.length (drop n s) = String.length s - n.
Proof.
  revert s; induction n as [|n IH]; intros [|c s]; simpl; try lia. apply IH.
Qed.

Lemma take_prefix_of (s w r : string) :
  s = w ++ r -> take (String.length s - String.length r) s = w.
Proof. intros ->. rewrite length_app, Nat.add_sub. apply take_app. Qed.

Lemma take_length_diff (p s : string) :
  prefix p s = true ->
  take (String.length s - String.length (drop (String.length p) s)) s = p.
Proof.
  intros H. rewrite length_drop.
  pose proof (prefix_split _ _ H) as E.
  assert (L : String.length p <= String.length s).
  { rewrite E, length_app. lia. }
  replace (String.length s - (String.length s - String.length p))
    with (String.length p) by lia.
  rewrite E at 1. apply take_app.
Qed.

(** *** Occurrences *)

Lemma indexOf_nil (p : string) :
  indexOf p EmptyString = if prefix p EmptyString then Some 0 else None.
Proof. reflexivity. Qed.

Lemma indexOf_cons (p : string) (c : ascii) (s : string) :
  indexOf p (String c s)
  = if prefix p (String c s) then Some 0 else option_map S (indexOf p s).
Proof. reflexivity. Qed.

Lemma lastIndexOf_nil (p : string) :
  lastIndexOf p EmptyString = if prefix p EmptyString then Some 0 else None.
Proof. reflexivity. Qed.

Lemma lastIndexOf_cons (p : string) (c : ascii) (s : string) :
  lastIndexOf p (String c s)
  = match lastIndexOf p s with
    | Some j => Some (S j)
    | None => if prefix p (String c s) then Some 0 else None
    end.
Proof. reflexivity. Qed.

Lemma indexOf_split (p s : string) (i : nat) :
  indexOf p s = Some i -> s = take i s ++ p ++ drop (i + String.length p) s.
Proof.
  revert i; induction s as [|c s IH]; intros i.
  - rewrite indexOf_nil. destruct (prefix p EmptyString) eqn:E; [|discriminate].
    intros [= <-]. now apply prefix_split in E.
  - rewrite indexOf_cons. destruct (prefix p (String c s)) eqn:E.
    + intros [= <-]. now apply prefix_split in E.
    + destruct (indexOf p s) as [j|]; [|discriminate].
      intros [= <-]. cbn [take drop append Nat.add]. f_equal. now apply IH.
Qed.

Lemma indexOf_app (p a b : string) :
  exists i, indexOf p (a ++ p ++ b) = Some i /\ i <= String.length a.
Proof.
  induction a as [|c a (i & Hi & Le)].
  - exists 0. split; [|simpl; lia].
    cbn [append]. destruct (p ++ b) eqn:E;
      [rewrite indexOf_nil | rewrite indexOf_cons];
      rewrite <- E, prefix_app; reflexivity.
  - cbn [append]. rewrite indexOf_cons.
    destruct (prefix p (String c (a ++ p ++ b))).
    + exists 0. split; [reflexivity | lia].
    + exists (S i). rewrite Hi. split; [reflexivity | simpl; lia].
Qed.

Lemma indexOf_earlier (p s : string) (i : nat) :
  indexOf p s = Some i -> forall m, m < i -> prefix p (drop m s) = false.
Proof.
  revert i; induction s as [|c s IH]; intros i.
  - rewrite indexOf_nil. destruct (prefix p EmptyString); [|discriminate].
    intros [= <-] m Hm. lia.
  - rewrite indexOf_cons. destruct (prefix p (String c s)) eqn:E.
    + intros [= <-] m Hm. lia.
    + destruct (indexOf p s) as [j|] eqn:Ej; [|discriminate].
      intros [= <-] [|m] Hm; cbn [drop]; [exact E|].
      apply (IH j eq_refl). lia.
Qed.

Lemma indexOf_none (p s : string) :
  indexOf p s = None -> forall m, prefix p (drop m s) = false.
Proof.
  induction s as [|c s IH].
  - rewrite indexOf_nil. destruct (prefix p EmptyString) eqn:E; [discriminate|].
    intros _ [|m]; exact E.
  - rewrite indexOf_cons. destruct (prefix p (String c s)) eqn:E; [discriminate|].
    destruct (indexOf p s) as [j|]; [discriminate|].
    intros _ [|m]; cbn [drop]; [exact E | now apply IH].
Qed.

Lemma lastIndexOf_prefix (p s : string) :
  prefix p s = true -> exists j, lastIndexOf p s = Some j.
Proof.
  intros H. destruct s as [|c s].
  - rewrite lastIndexOf_nil, H. now exists 0.
  - rewrite lastIndexOf_cons.
    destruct (lastIndexOf p s) as [j|]; [now exists (S j)|].
    rewrite H. now exists 0.
Qed.

Lemma lastIndexOf_app (p a b : string) :
  exists j, lastIndexOf p (a ++ p ++ b) = Some j.
Proof.
  induction a as [|c a (j & Hj)]; cbn [append].
  - apply lastIndexOf_prefix, prefix_app.
  - rewrite lastIndexOf_cons, Hj. now exists (S j).
Qed.

Lemma lastIndexOf_split (p s : string) (j : nat) :
  lastIndexOf p s = Some j -> s = take j s ++ p ++ drop (j + String.length p) s.
Proof.
  revert j; induction s as [|c s IH]; intros j.
  - rewrite lastIndexOf_nil. destruct (prefix p EmptyString) eqn:E; [|discriminate].
    intros [= <-]. now apply prefix_split in E.
  - rewrite lastIndexOf_cons. destruct (lastIndexOf p s) as [i|].
    + intros [= <-]. cbn [take drop append Nat.add]. f_equal. now apply IH.
    + destruct (prefix p (String c s)) eqn:E; [|discriminate].
      intros [= <-]. now apply prefix_split in E.
Qed.

End StringFacts.

(** ** The matcher *)

Section MatcherFacts.

Lemma match_here_lit_app (p : string) (re : regex) (s : string) :
  match_here (lit p ++ re)%list s
  = if prefix p s then match_here re (drop (String.length p) s) else None.
Proof.
  revert s; induction p as [|c p IH]; intros s.
  - now rewrite prefix_empty.
  - destruct s as [|d s]; [reflexivity|].
    rewrite prefix_cons. cbn [lit app match_here String.length drop].
    destruct (Ascii.eqb c d); [apply IH | reflexivity].
Qed.

Lemma match_here_lit (p s : string) :
  match_here (lit p) s
  = if prefix p s then Some ([], drop (String.length p) s) else None.
Proof.
  rewrite <- (app_nil_r (lit p)). apply match_here_lit_app.
Qed.

Lemma greedy_nil {A : Type} (cls : ascii -> bool) (k : string -> option A) :
  greedy cls k EmptyString = option_map (pair EmptyString) (k EmptyString).
Proof. reflexivity. Qed.

Lemma greedy_cons {A : Type} (cls : ascii -> bool) (k : string -> option A)
      (c : ascii) (s : string) :
  greedy cls k (String c s)
  = if cls c
    then match greedy cls k s with
         | Some (w, r) => Some (String c w, r)
         | None => option_map (pair EmptyString) (k (String c s))
         end
    else option_map (pair EmptyString) (k (String c s)).
Proof. reflexivity. Qed.

(** A run of the class before a match of the loop is taken into the loop. *)
Lemma greedy_skip {A : Type} (cls : ascii -> bool) (k : string -> option A)
      (w s w' : string) (r : A) :
  forallb cls (list_ascii_of_string w) = true ->
  greedy cls k s = Some (w', r) ->
  greedy cls k (w ++ s) = Some (w ++ w', r).
Proof.
  intros Hw Hs. induction w as [|c w IH]; [exact Hs|].
  cbn [list_ascii_of_string forallb] in Hw. apply andb_prop in Hw as [Hc Hw].
  cbn [append]. rewrite greedy_cons, Hc, (IH Hw). reflexivity.
Qed.

Lemma greedy_stops {A : Type} (cls : ascii -> bool) (k : string -> option A)
      (s : string) :
  stops cls s = true -> greedy cls k s = option_map (pair EmptyString) (k s).
Proof.
  destruct s as [|c s]; [reflexivity|]. cbn [stops]. intros H.
  rewrite greedy_cons. apply negb_true_iff in H. now rewrite H.
Qed.

(** The loop fails over a run on which the continuation fails everywhere. *)
Lemma greedy_fails {A : Type} (cls : ascii -> bool) (k : string -> option A)
      (w s : string) :
  (forall n, k (drop n (w ++ s)) = None) ->
  stops cls s = true ->
  greedy cls k (w ++ s) = None.
Proof.
  intros Hk Hs. induction w as [|c w IH].
  - cbn [append]. rewrite (greedy_stops _ _ _ Hs).
    pose proof (Hk 0) as H0. cbn [drop append] in H0. now rewrite H0.
  - cbn [append]. rewrite greedy_cons.
    rewrite IH by (intros n; apply (Hk (S n))).
    pose proof (Hk 0) as H0. cbn [drop append] in H0. rewrite H0.
    now destruct (cls c).
Qed.

(** The group of a delimiter pattern runs up to the last closing tag. *)
Lemma greedy_any_lit (p s : string) :
  greedy any_char (match_here (lit p)) s
  = match lastIndexOf p s with
    | Some j => Some (take j s, ([], drop (j + String.length p) s))
    | None => None
    end.
Proof.
  induction s as [|c s IH].
  - rewrite greedy_nil, lastIndexOf_nil, match_here_lit.
    now destruct (prefix p EmptyString).
  - rewrite greedy_cons, lastIndexOf_cons, IH, match_here_lit.
    cbn [any_char]. destruct (lastIndexOf p s) as [j|]; [reflexivity|].
    now destruct (prefix p (String c s)).
Qed.

Lemma lastIndexOf_later (p s : string) :
  lastIndexOf p s = None -> forall n, lastIndexOf p (drop n s) = None.
Proof.
  induction s as [|c s IH]; intros H n.
  - now destruct n.
  - destruct n as [|n]; [exact H|]. cbn [drop]. apply IH.
    rewrite lastIndexOf_cons in H. now destruct (lastIndexOf p s).
Qed.

(** What the loop returns: a run of the class, and the continuation's result
    on the input after the run. *)
Lemma greedy_sound {A : Type} (cls : ascii -> bool) (k : string -> option A)
      (s w : string) (a : A) :
  greedy cls k s = Some (w, a) ->
  all_chars cls w = true /\ exists x, s = w ++ x /\ k x = Some a.
Proof.
  revert w; induction s as [|c s IH]; intros w.
  - rewrite greedy_nil. destruct (k EmptyString) as [a'|] eqn:K; [|discriminate].
    cbn [option_map]. intros [= <- <-]. split; [reflexivity|].
    now exists EmptyString.
  - rewrite greedy_cons.
    assert (F : option_map (pair EmptyString) (k (String c s)) = Some (w, a) ->
                all_chars cls w = true /\ exists x, String c s = w ++ x /\ k x = Some a).
    { destruct (k (String c s)) as [a'|] eqn:K; [|discriminate].
      cbn [option_map]. intros [= <- <-]. split; [reflexivity|].
      now exists (String c s). }
    destruct (cls c) eqn:C; [|exact F].
    destruct (greedy cls k s) as [[w' a']|] eqn:G; [|exact F].
    intros [= <- <-]. destruct (IH w' eq_refl) as (Hw & x & -> & Hx).
    split.
    + unfold all_chars in *. cbn [list_ascii_of_string forallb]. now rewrite C.
    + now exists x.
Qed.

(** A match takes a prefix of the input. *)
Lemma match_here_sound (re : regex) (s : string) (caps : list string) (r : string) :
  match_here re s = Some (caps, r) -> exists w, s = w ++ r.
Proof.
  revert s caps r; induction re as [|[c|cls|cls] re IH]; intros s caps r.
  - intros [= <- <-]. now exists EmptyString.
  - cbn [match_here]. destruct s as [|d s]; [discriminate|].
    destruct (Ascii.eqb_spec c d) as [<-|]; [|discriminate].
    intros H. destruct (IH _ _ _ H) as (w & ->). now exists (String c w).
  - cbn [match_here].
    destruct (greedy cls (match_here re) s) as [[w [caps' r']]|] eqn:G; [|discriminate].
    cbn [option_map snd]. intros [= <- <-].
    destruct (greedy_sound _ _ _ _ _ G) as (_ & x & -> & Hx).
    destruct (IH _ _ _ Hx) as (w' & ->).
    exists (w ++ w'). now rewrite app_assoc_s.
  - cbn [match_here].
    destruct (greedy cls (match_here re) s) as [[w [caps' r']]|] eqn:G; [|discriminate].
    intros [= <- <-].
    destruct (greedy_sound _ _ _ _ _ G) as (_ & x & -> & Hx).
    destruct (IH _ _ _ Hx) as (w' & ->).
    exists (w ++ w'). now rewrite app_assoc_s.
Qed.

End MatcherFacts.

(** ** Regions of the template *)

Section RegionFacts.

Lemma match_here_tag (tag s : string) :
  match_here (tag_regex tag) s
  = if prefix (open_tag tag) s
    then match lastIndexOf (close_tag tag) (drop (String.length (open_tag tag)) s) with
         | Some j =>
             let rest := drop (String.length (open_tag tag)) s in
             Some ([take j rest], drop (j + String.length (close_tag tag)) rest)
         | None => None
         end
    else None.
Proof.
  unfold tag_regex. rewrite match_here_lit_app.
  destruct (prefix (open_tag tag) s); [|reflexivity].
  cbn [app match_here]. rewrite greedy_any_lit.
  now destruct (lastIndexOf _ _).
Qed.

Lemma exec_from_eq (re : regex) (i : nat) (s : string) :
  exec_from re i s
  = match match_here re s with
    | Some (caps, r) =>
        Some (MatchResult i (take (String.length s - String.length r) s) caps)
    | None =>
        match s with
        | EmptyString => None
        | String _ s' => exec_from re (S i) s'
        end
    end.
Proof. now destruct s. Qed.

Lemma exec_from_none (re : regex) (i : nat) (s : string) :
  (forall n, match_here re (drop n s) = None) -> exec_from re i s = None.
Proof.
  revert i; induction s as [|c s IH]; intros i H; rewrite exec_from_eq.
  - pose proof (H 0) as H0. cbn [drop] in H0. now rewrite H0.
  - pose proof (H 0) as H0. cbn [drop] in H0. rewrite H0.
    apply IH. intros n. apply (H (S n)).
Qed.

(** Without a closing tag after an opening tag, no later start matches. *)
Lemma tag_no_later_match (tag s : string) :
  lastIndexOf (close_tag tag) (drop (String.length (open_tag tag)) s) = None ->
  forall n, match_here (tag_regex tag) (drop n s) = None.
Proof.
  intros L n. rewrite match_here_tag.
  destruct (prefix (open_tag tag) (drop n s)); [|reflexivity].
  rewrite drop_drop, Nat.add_comm, <- drop_drop.
  now rewrite (lastIndexOf_later _ _ L n).
Qed.

Lemma exec_from_tag (tag s : string) (i : nat) :
  option_map group1 (exec_from (tag_regex tag) i s) = region_last tag s.
Proof.
  unfold region_last.
  revert i; induction s as [|c s IH]; intros i; rewrite exec_from_eq, match_here_tag.
  - rewrite indexOf_nil.
    destruct (prefix (open_tag tag) EmptyString); [|reflexivity].
    cbn [Nat.add]. now destruct (lastIndexOf _ _).
  - rewrite indexOf_cons.
    destruct (prefix (open_tag tag) (String c s)) eqn:E.
    + cbn [Nat.add].
      destruct (lastIndexOf _ (drop _ (String c s))) as [j|] eqn:L; [reflexivity|].
      rewrite exec_from_none; [reflexivity|].
      intros n. apply (tag_no_later_match tag (String c s) L (S n)).
    + rewrite IH. now destruct (indexOf (open_tag tag) s).
Qed.

Lemma exec_tag (tag s : string) :
  option_map group1 (exec (tag_regex tag) s) = region_last tag s.
Proof. apply exec_from_tag. Qed.

(** A region found by the pattern is a region of the text. *)
Lemma region_last_sound (tag text inner : string) :
  region_last tag text = Some inner ->
  exists pre post, text = pre ++ open_tag tag ++ inner ++ close_tag tag ++ post.
Proof.
  unfold region_last.
  destruct (indexOf (open_tag tag) text) as [i|] eqn:I; [|discriminate].
  destruct (lastIndexOf _ _) as [j|] eqn:L; [|discriminate].
  intros H.
  replace inner with (take j (drop (i + String.length (open_tag tag)) text))
    by congruence.
  exists (take i text), (drop (j + String.length (close_tag tag))
                             (drop (i + String.length (open_tag tag)) text)).
  rewrite <- (lastIndexOf_split _ _ _ L). now apply indexOf_split.
Qed.

(** Where the tag occurs, the pattern finds a region. *)
Lemma region_last_complete (tag text : string) :
  has_region tag text -> exists inner, region_last tag text = Some inner.
Proof.
  intros (pre & inner & post & ->). unfold region_last.
  destruct (indexOf_app (open_tag tag) pre (inner ++ close_tag tag ++ post))
    as (i & -> & Le).
  rewrite <- app_assoc_s, drop_app_le by (rewrite length_app; lia).
  destruct (lastIndexOf_app (close_tag tag)
              (drop (i + String.length (open_tag tag)) (pre ++ open_tag tag) ++ inner)
              post) as (j & Hj).
  rewrite app_assoc_s in Hj. rewrite Hj. eauto.
Qed.

(** Where the closing tag is not repeated after the first opening tag, the
    region of the pattern is the first region. *)
Lemma region_last_is_first (tag text : string) (i j : nat) :
  indexOf (open_tag tag) text = Some i ->
  indexOf (close_tag tag) (drop (i + String.length (open_tag tag)) text) = Some j ->
  lastIndexOf (close_tag tag) (drop (i + String.length (open_tag tag)) text) = Some j ->
  region_last tag text = region_first tag text.
Proof.
  intros Hi Hf Hl. unfold region_last, region_first.
  rewrite Hi. cbv zeta. now rewrite Hf, Hl.
Qed.

Lemma has_region_iff (tag text : string) :
  has_region tag text <-> region_last tag text <> None.
Proof.
  split.
  - intros H. destruct (region_last_complete _ _ H) as (x & ->). discriminate.
  - destruct (region_last tag text) as [x|] eqn:E; [|congruence].
    intros _. destruct (region_last_sound _ _ _ E) as (pre & post & ->).
    now exists pre, x, post.
Qed.

End RegionFacts.

(** ** Template extraction *)

Section Extraction.

Variable fs : filesystem.
Variable path : string.

(** On a template with text, extraction is the four regions or the second
    failure. *)
Lemma extractTextToInject_regions (text : string) :
  fs path = Some text ->
  text <> EmptyString ->
  extractTextToInject fs path
  = match region_last "head-start" text, region_last "head-end" text,
          region_last "body-start" text, region_last "body-end" text with
    | Some hs, Some he, Some bs, Some be => Ok (Fragments hs he bs be)
    | _, _, _, _ => Throw (MalformedTemplateError path)
    end.
Proof.
  intros Hfs Hne. unfold extractTextToInject, readFileSync.
  rewrite Hfs. cbn [bind].
  destruct text as [|c text]; [now elim Hne|].
  rewrite <- !exec_tag.
  destruct (exec (tag_regex "head-start") (String c text));
    destruct (exec (tag_regex "head-end") (String c text));
    destruct (exec (tag_regex "body-start") (String c text));
    destruct (exec (tag_regex "body-end") (String c text)); reflexivity.
Qed.

Lemma region_last_empty (tag : string) : region_last tag EmptyString = None.
Proof. reflexivity. Qed.

Lemma bad_injection_message_names_path :
  exists a b, bad_injection_message path = a ++ path ++ b.
Proof. unfold bad_injection_message. eexists _, _. reflexivity. Qed.

End Extraction.

(** C1 (amended).  For every template text in which each of the four
    delimiter tags occurs, extraction succeeds and returns, for each tag, the
    text between the first opening tag and the last closing tag after it: the
    group of the pattern is greedy, so when a tag pair is repeated the
    fragment runs from the first opening tag to the last closing tag. *)
Theorem extraction_first_opening_to_last_closing
        (fs : filesystem) (path text : string) :
  fs path = Some text ->
  has_region "head-start" text ->
  has_region "head-end" text ->
  has_region "body-start" text ->
  has_region "body-end" text ->
  exists hs he bs be,
    region_last "head-start" text = Some hs
    /\ region_last "head-end" text = Some he
    /\ region_last "body-start" text = Some bs
    /\ region_last "body-end" text = Some be
    /\ extractTextToInject fs path = Ok (Fragments hs he bs be).
Proof.
  intros Hfs H1 H2 H3 H4.
  destruct (region_last_complete _ _ H1) as (hs & E1).
  destruct (region_last_complete _ _ H2) as (he & E2).
  destruct (region_last_complete _ _ H3) as (bs & E3).
  destruct (region_last_complete _ _ H4) as (be & E4).
  exists hs, he, bs, be. repeat split; try assumption.
  rewrite (extractTextToInject_regions fs path text Hfs).
  - now rewrite E1, E2, E3, E4.
  - intros ->. now rewrite region_last_empty in E1.
Qed.

Lemma extraction_first_opening_to_last_closing_witness :
  exists hs he bs be,
    region_last "head-start" "<head-start>A</head-start><head-end>B</head-end><body-start>C</body-start><body-end>D</body-end>" = Some hs
    /\ region_last "head-end" "<head-start>A</head-start><head-end>B</head-end><body-start>C</body-start><body-end>D</body-end>" = Some he
    /\ region_last "body-start" "<head-start>A</head-start><head-end>B</head-end><body-start>C</body-start><body-end>D</body-end>" = Some bs
    /\ region_last "body-end" "<head-start>A</head-start><head-end>B</head-end><body-start>C</body-start><body-end>D</body-end>" = Some be
    /\ extractTextToInject
         (fun _ => Some "<head-start>A</head-start><head-end>B</head-end><body-start>C</body-start><body-end>D</body-end>")
         "index.html.inject"
       = Ok (Fragments hs he bs be).
Proof.
  apply (extraction_first_opening_to_last_closing
           (fun _ => Some "<head-start>A</head-start><head-end>B</head-end><body-start>C</body-start><body-end>D</body-end>")
           "index.html.inject").
  - reflexivity.
  - exists EmptyString, "A", "<head-end>B</head-end><body-start>C</body-start><body-end>D</body-end>".
    reflexivity.
  - exists "<head-start>A</head-start>", "B", "<body-start>C</body-start><body-end>D</body-end>".
    reflexivity.
  - exists "<head-start>A</head-start><head-end>B</head-end>", "C", "<body-end>D</body-end>".
    reflexivity.
  - exists "<head-start>A</head-start><head-end>B</head-end><body-start>C</body-start>", "D", EmptyString.
    reflexivity.
Defined.

(** C1, as stated, fails on a template with a repeated pair: the inner text
    of the first head-start region is [A], and the fragment extracted holds
    the first closing tag, the second opening tag and the second inner text
    as well. *)
Lemma repeated_pair_is_not_first_region :
  has_region "head-start" "<head-start>A</head-start><head-start>B</head-start><head-end>E</head-end><body-start>S</body-start><body-end>Z</body-end>"
  /\ has_region "head-end" "<head-start>A</head-start><head-start>B</head-start><head-end>E</head-end><body-start>S</body-start><body-end>Z</body-end>"
  /\ has_region "body-start" "<head-start>A</head-start><head-start>B</head-start><head-end>E</head-end><body-start>S</body-start><body-end>Z</body-end>"
  /\ has_region "body-end" "<head-start>A</head-start><head-start>B</head-start><head-end>E</head-end><body-start>S</body-start><body-end>Z</body-end>"
  /\ region_first "head-start" "<head-start>A</head-start><head-start>B</head-start><head-end>E</head-end><body-start>S</body-start><body-end>Z</body-end>" = Some "A"
  /\ extractTextToInject
       (fun _ => Some "<head-start>A</head-start><head-start>B</head-start><head-end>E</head-end><body-start>S</body-start><body-end>Z</body-end>")
       "index.html.inject"
     = Ok (Fragments "A</head-start><head-start>B" "E" "S" "Z")
  /\ extractTextToInject
       (fun _ => Some "<head-start>A</head-start><head-start>B</head-start><head-end>E</head-end><body-start>S</body-start><body-end>Z</body-end>")
       "index.html.inject"
     <> Ok (Fragments "A" "E" "S" "Z").
Proof.
  split; [|split; [|split; [|split; [|split; [|split]]]]].
  - exists EmptyString, "A", "<head-start>B</head-start><head-end>E</head-end><body-start>S</body-start><body-end>Z</body-end>".
    reflexivity.
  - exists "<head-start>A</head-start><head-start>B</head-start>", "E", "<body-start>S</body-start><body-end>Z</body-end>".
    reflexivity.
  - exists "<head-start>A</head-start><head-start>B</head-start><head-end>E</head-end>", "S", "<body-end>Z</body-end>".
    reflexivity.
  - exists "<head-start>A</head-start><head-start>B</head-start><head-end>E</head-end><body-start>S</body-start>", "Z", EmptyString.
    reflexivity.
  - vm_compute. reflexivity.
  - vm_compute. reflexivity.
  - vm_compute. discriminate.
Qed.

(** C4 (amended).  For every template text that is not empty and from which
    one of the four delimiter tags is absent, extraction throws the error of
    a malformed template, whose message holds the path of the template, and
    returns no fragment set, partial or not.  (An empty text is caught before
    the tags are looked for.) *)
Theorem missing_tag_is_malformed
        (fs : filesystem) (path text tag : string) :
  fs path = Some text ->
  text <> EmptyString ->
  In tag delimiter_tags ->
  ~ has_region tag text ->
  extractTextToInject fs path = Throw (MalformedTemplateError path)
  /\ (exists a b, bad_injection_message path = a ++ path ++ b)
  /\ (forall t, extractTextToInject fs path <> Ok t).
Proof.
  intros Hfs Hne Htag Habs.
  assert (N : region_last tag text = None).
  { destruct (region_last tag text) eqn:E; [|reflexivity].
    elim Habs. apply has_region_iff. congruence. }
  assert (M : extractTextToInject fs path = Throw (MalformedTemplateError path)).
  { rewrite (extractTextToInject_regions fs path text Hfs Hne).
    destruct Htag as [<-|[<-|[<-|[<-|[]]]]]; rewrite N;
      repeat match goal with
             | |- context [match region_last ?t text with _ => _ end] =>
                 destruct (region_last t text)
             end; reflexivity. }
  split; [exact M|]. split; [apply bad_injection_message_names_path|].
  intros t. rewrite M. discriminate.
Qed.

Lemma missing_tag_is_malformed_witness :
  extractTextToInject (fun _ => Some "<head-start>A</head-start><head-end>B</head-end><body-start>C</body-start>")
                      "index.html.inject"
  = Throw (MalformedTemplateError "index.html.inject")
  /\ (exists a b, bad_injection_message "index.html.inject" = a ++ "index.html.inject" ++ b)
  /\ (forall t, extractTextToInject (fun _ => Some "<head-start>A</head-start><head-end>B</head-end><body-start>C</body-start>")
                                    "index.html.inject" <> Ok t).
Proof.
  apply (missing_tag_is_malformed
           (fun _ => Some "<head-start>A</head-start><head-end>B</head-end><body-start>C</body-start>")
           "index.html.inject"
           "<head-start>A</head-start><head-end>B</head-end><body-start>C</body-start>"
           "body-end").
  - reflexivity.
  - discriminate.
  - simpl. tauto.
  - intros H. apply has_region_iff in H. apply H. vm_compute. reflexivity.
Defined.

(** C4, as stated, fails on the empty template: every tag is absent from it,
    and the error thrown is the one of a template not found. *)
Lemma empty_template_is_not_malformed :
  (forall tag, ~ has_region tag EmptyString)
  /\ extractTextToInject (fun _ => Some EmptyString) "index.html.inject"
     = Throw (TemplateNotFoundError "index.html.inject")
  /\ extractTextToInject (fun _ => Some EmptyString) "index.html.inject"
     <> Throw (MalformedTemplateError "index.html.inject").
Proof.
  split; [|split].
  - intros tag H. apply has_region_iff in H. apply H. apply region_last_empty.
  - reflexivity.
  - vm_compute. discriminate.
Qed.

(** ** The factory and its lazypipe *)

Section Factory.

Variable injectionFilePath : string.

(** The call of [injectIndex] on an object only chains the steps. *)
Lemma injectIndex_returns (o : options) :
  exists lp, injectIndex injectionFilePath (Some o) = Ok lp.
Proof. unfold injectIndex. cbn [bind]. eexists; reflexivity. Qed.

(** A failure of extraction is the failure of the build. *)
Lemma build_injectIndex_throws (fs : filesystem) (o : options) (lp : lazypipe) (e : exn) :
  injectIndex injectionFilePath (Some o) = Ok lp ->
  extractTextToInject fs injectionFilePath = Throw e ->
  build fs lp = Throw e.
Proof.
  unfold injectIndex. cbn [bind]. intros [= <-] E.
  cbn [build pure_step bind]. unfold injectDeviceReadyDetection.
  rewrite E. reflexivity.
Qed.

(** The fields left out of the object take their default values: the CSP
    stage is the one of empty lists and of the default source. *)
Lemma injectIndex_defaults (fs : filesystem) :
  exists lp,
    injectIndex injectionFilePath (Some (Options None None None None)) = Ok lp
    /\ nth_error lp 4
       = Some (fun _ => Ok (inject_csp (createMetaCsp DEFAULT_SOURCE None None None)))
    /\ createMetaCsp DEFAULT_SOURCE None None None
       = createMetaCsp DEFAULT_SOURCE (Some []) (Some []) (Some []).
Proof. eexists. repeat split. Qed.

End Factory.

(** C5 (amended).  For every template path whose read yields an empty text,
    extraction throws the error of a template not found.  The failure is
    fatal: the call of the factory on a configuration returns its lazypipe,
    and building that lazypipe, which comes before any document, throws this
    error, so that no stage exists to process a document. *)
Theorem empty_template_is_not_found (fs : filesystem) (path : string) :
  fs path = Some EmptyString ->
  extractTextToInject fs path = Throw (TemplateNotFoundError path)
  /\ forall o : options,
      exists lp, injectIndex path (Some o) = Ok lp
                 /\ build fs lp = Throw (TemplateNotFoundError path).
Proof.
  intros Hfs.
  assert (E : extractTextToInject fs path = Throw (TemplateNotFoundError path)).
  { unfold extractTextToInject, readFileSync. now rewrite Hfs. }
  split; [exact E|]. intros o.
  destruct (injectIndex_returns path o) as (lp & Hlp).
  exists lp. split; [exact Hlp|].
  now apply (build_injectIndex_throws path fs o).
Qed.

Lemma empty_template_is_not_found_witness :
  extractTextToInject (fun _ => Some EmptyString) "index.html.inject"
  = Throw (TemplateNotFoundError "index.html.inject")
  /\ forall o : options,
      exists lp, injectIndex "index.html.inject" (Some o) = Ok lp
                 /\ build (fun _ => Some EmptyString) lp
                    = Throw (TemplateNotFoundError "index.html.inject").
Proof.
  apply (empty_template_is_not_found (fun _ => Some EmptyString) "index.html.inject").
  reflexivity.
Defined.

(** C5, as stated, fails where the file is missing: the read itself throws,
    with the error of the file system and not with the error of a template
    not found, which only an empty file gets.  Nor does the call of the
    factory fail: it returns a lazypipe without reading the template. *)
Lemma missing_template_throws_ENOENT :
  extractTextToInject (fun _ => None) "index.html.inject"
  = Throw (ENOENT "index.html.inject")
  /\ extractTextToInject (fun _ => None) "index.html.inject"
     <> Throw (TemplateNotFoundError "index.html.inject")
  /\ exists lp,
       injectIndex "index.html.inject" (Some (Options None None None None)) = Ok lp.
Proof.
  split; [reflexivity|]. split; [discriminate|].
  apply injectIndex_returns.
Qed.

(** C9.  Called without an argument, [injectIndex] throws and returns no
    pipeline: the default value of its parameter is the unbound identifier
    [options].  Called on an object, it returns its pipeline whatever fields
    the object leaves out, and on the object without any field the policy is
    the one of empty lists and of the source [index.html]. *)
Theorem injectIndex_without_argument_throws (injectionFilePath : string) :
  injectIndex injectionFilePath None = Throw (ReferenceError "options")
  /\ (forall lp, injectIndex injectionFilePath None <> Ok lp)
  /\ (forall o, exists lp, injectIndex injectionFilePath (Some o) = Ok lp)
  /\ exists lp,
      injectIndex injectionFilePath (Some (Options None None None None)) = Ok lp
      /\ nth_error lp 4
         = Some (fun _ => Ok (inject_csp
                                (createMetaCsp "index.html" (Some []) (Some []) (Some [])))).
Proof.
  split; [reflexivity|]. split; [discriminate|].
  split; [apply injectIndex_returns|].
  eexists. split; reflexivity.
Qed.

(** ** The Content-Security-Policy tag *)

Lemma join_cons (sep x y : string) (l : list string) :
  join sep (x :: y :: l) = x ++ sep ++ join sep (y :: l).
Proof. reflexivity. Qed.



(** C3 (amended).  For every source and every list [connectSrc], the value
    of the directive [connect-src] is the sequence [self:], t, then the
    entries of [connectSrc], joined by spaces in this order, where t is the
    literal [file:] if the source is the default document name [index.html]
    and the source itself otherwise (so that t is [file:] also for a source
    that is the string [file:]). *)
Theorem connect_src_value
        (source : string) (connectSrc defaultSrc frameSrc : list string) :
  (source = DEFAULT_SOURCE
   /\ get (cspRules source (Some connectSrc) (Some defaultSrc) (Some frameSrc))
          "connect-src"
      = join " " ("self:" :: "file:" :: connectSrc))
  \/
  (source <> DEFAULT_SOURCE
   /\ get (cspRules source (Some connectSrc) (Some defaultSrc) (Some frameSrc))
          "connect-src"
      = join " " ("self:" :: source :: connectSrc)).
Proof.
  unfold cspRules.
  cbn [or_empty get String.eqb Ascii.eqb Bool.eqb app].
  destruct (String.eqb_spec source DEFAULT_SOURCE) as [E|N].
  - left. split; [exact E | reflexivity].
  - right. split; [exact N | reflexivity].
Qed.

(** C3, as stated, fails for the source [file:]: the token is [file:] and the
    source is not the default document name. *)
Lemma file_token_without_default_source :
  get (cspRules "file:" (Some []) (Some []) (Some [])) "connect-src"
  = join " " ["self:"; "file:"]
  /\ "file:" <> DEFAULT_SOURCE
  /\ ~ (forall source connectSrc t,
          get (cspRules source (Some connectSrc) (Some []) (Some [])) "connect-src"
          = join " " ("self:" :: t :: connectSrc) ->
          (t = "file:" <-> source = DEFAULT_SOURCE)).
Proof.
  split; [reflexivity|]. split; [discriminate|].
  intros H.
  assert (E : "file:" = DEFAULT_SOURCE).
  { apply (H "file:" [] "file:"); reflexivity. }
  discriminate E.
Qed.

(** ** Replacements *)

Section ReplaceFacts.

(** The leftmost match of a literal is its first occurrence. *)
Lemma exec_from_lit (p s : string) (i : nat) :
  exec_from (lit p) i s
  = match indexOf p s with
    | Some j => Some (MatchResult (i + j) p [])
    | None => None
    end.
Proof.
  revert i; induction s as [|c s IH]; intros i; rewrite exec_from_eq, match_here_lit.
  - rewrite indexOf_nil. destruct (prefix p EmptyString) eqn:E; [|reflexivity].
    rewrite (take_length_diff _ _ E), Nat.add_0_r. reflexivity.
  - rewrite indexOf_cons. destruct (prefix p (String c s)) eqn:E.
    + rewrite (take_length_diff _ _ E), Nat.add_0_r. reflexivity.
    + rewrite IH. destruct (indexOf p s) as [j|]; [|reflexivity].
      cbn [option_map]. now rewrite Nat.add_succ_r.
Qed.

(** A pattern that is a literal: the replacement, its dollar patterns
    expanded, takes the place of the first occurrence; the text around it is
    kept. *)
Lemma replace_regexp_lit (p repl s : string) :
  replace_regexp (lit p) repl s
  = match indexOf p s with
    | Some i =>
        take i s
        ++ GetSubstitution p (take i s) (drop (i + String.length p) s) repl
        ++ drop (i + String.length p) s
    | None => s
    end.
Proof.
  unfold replace_regexp, exec. rewrite exec_from_lit.
  now destruct (indexOf p s).
Qed.

(** The result of a search: the match stands in the text where no earlier
    start matches. *)
Lemma exec_from_sound (re : regex) (i : nat) (s : string) (m : match_result) :
  exec_from re i s = Some m ->
  exists pre post,
    s = pre ++ matched m ++ post
    /\ index m = i + String.length pre
    /\ match_here re (matched m ++ post) = Some (groups m, post)
    /\ forall n, n < String.length pre -> match_here re (drop n s) = None.
Proof.
  assert (Hit : forall s i caps r,
             match_here re s = Some (caps, r) ->
             Some (MatchResult i (take (String.length s - String.length r) s) caps)
             = Some m ->
             exists pre post,
               s = pre ++ matched m ++ post
               /\ index m = i + String.length pre
               /\ match_here re (matched m ++ post) = Some (groups m, post)
               /\ forall n, n < String.length pre -> match_here re (drop n s) = None).
  { clear s i. intros s i caps r M H.
    destruct (match_here_sound _ _ _ _ M) as (w & E).
    rewrite (take_prefix_of _ _ _ E) in H. injection H as <-.
    exists EmptyString, r. cbn [matched index groups].
    repeat split;
      [exact E | simpl; lia | now rewrite <- E | simpl; intros n Hn; lia]. }
  revert i; induction s as [|c s IH]; intros i; rewrite exec_from_eq.
  - destruct (match_here re EmptyString) as [[caps r]|] eqn:M; [|discriminate].
    now apply Hit.
  - destruct (match_here re (String c s)) as [[caps r]|] eqn:M; [now apply Hit|].
    intros H. destruct (IH _ H) as (pre & post & E & I & Hm & Hn).
    exists (String c pre), post. cbn [append String.length].
    repeat split; [now rewrite <- E | lia | exact Hm |].
    intros [|n] Hlt; cbn [drop]; [exact M | apply Hn; lia].
Qed.

(** A replacement by a regular expression touches one match, the leftmost,
    and keeps the text before and after it. *)
Lemma replace_regexp_once (re : regex) (repl s : string) :
  (exec re s = None /\ replace_regexp re repl s = s)
  \/ exists pre m post caps,
      s = pre ++ m ++ post
      /\ match_here re (m ++ post) = Some (caps, post)
      /\ (forall n, n < String.length pre -> match_here re (drop n s) = None)
      /\ replace_regexp re repl s = pre ++ GetSubstitution m pre post repl ++ post.
Proof.
  unfold replace_regexp, exec.
  destruct (exec_from re 0 s) as [m|] eqn:E; [right | now left].
  destruct (exec_from_sound _ _ _ _ E) as (pre & post & Hs & Hi & Hm & Hn).
  exists pre, (matched m), post, (groups m).
  repeat split; try assumption.
  rewrite Hi. cbn [Nat.add].
  assert (T : take (String.length pre) s = pre) by (rewrite Hs; apply take_app).
  assert (D : drop (String.length pre + String.length (matched m)) s = post).
  { rewrite Hs, <- length_app, <- app_assoc_s. apply drop_app. }
  now rewrite T, D.
Qed.

(** A replacement without a dollar is copied. *)
Lemma GetSubstitution_plain (m b a repl : string) :
  all_chars (fun c => negb (Ascii.eqb c "$"%char)) repl = true ->
  GetSubstitution m b a repl = repl.
Proof.
  unfold all_chars. induction repl as [|c r IH]; [reflexivity|].
  cbn [list_ascii_of_string forallb]. intros H.
  apply andb_prop in H as [Hc Hr]. apply negb_true_iff in Hc.
  cbn [GetSubstitution]. rewrite Hc, (IH Hr). reflexivity.
Qed.

(** *** The string search: split and join *)

Lemma split_go_skip (sep : string) (k : nat) (s : string) :
  split_go sep k s = split_go sep 0 (drop k s).
Proof.
  revert k; induction s as [|c s IH]; intros [|k]; try reflexivity.
  cbn [split_go drop]. apply IH.
Qed.

Lemma split_go_none (sep s : string) :
  indexOf sep s = None -> split_go sep 0 s = (s, []).
Proof.
  induction s as [|c s IH]; [reflexivity|].
  rewrite indexOf_cons. cbn [split_go].
  destruct (prefix sep (String c s)); [discriminate|].
  destruct (indexOf sep s); [discriminate|].
  intros _. now rewrite IH.
Qed.

Lemma split_go_some (sep s : string) (i : nat) :
  sep <> EmptyString ->
  indexOf sep s = Some i ->
  split_go sep 0 s = (take i s, split sep (drop (i + String.length sep) s)).
Proof.
  intros Hsep. revert i; induction s as [|c s IH]; intros i.
  - rewrite indexOf_nil. destruct sep; [now elim Hsep | discriminate].
  - rewrite indexOf_cons. cbn [split_go].
    destruct (prefix sep (String c s)).
    + intros [= <-]. rewrite split_go_skip. unfold split.
      destruct sep as [|d sep]; [now elim Hsep|].
      cbn [String.length Nat.add Nat.sub drop take].
      rewrite Nat.sub_0_r.
      now destruct (split_go (String d sep) 0 (drop (String.length sep) s)).
    + destruct (indexOf sep s) as [j|]; [|discriminate].
      intros [= <-]. rewrite (IH j eq_refl). reflexivity.
Qed.

(** The string search replaces the first occurrence and goes on after it. *)
Lemma replace_string_some (sep repl s : string) (i : nat) :
  sep <> EmptyString ->
  indexOf sep s = Some i ->
  replace (PString sep) repl s
  = take i s ++ repl ++ replace (PString sep) repl (drop (i + String.length sep) s).
Proof.
  intros Hsep Hi. unfold replace at 1, split.
  rewrite (split_go_some _ _ _ Hsep Hi).
  unfold replace, split.
  now destruct (split_go sep 0 (drop (i + String.length sep) s)).
Qed.

Lemma replace_string_none (sep repl s : string) :
  indexOf sep s = None -> replace (PString sep) repl s = s.
Proof.
  intros H. unfold replace, split. now rewrite (split_go_none _ _ H).
Qed.

End ReplaceFacts.

(** ** The stages of the pipeline *)

Lemma fragment_step_is_replace (t : fragments) (anchor repl : string) (stage : stream) :
  In (anchor, repl, stage) (fragment_steps t) ->
  stage = replace (PRegExp (lit anchor)) repl.
Proof.
  intros [H|[H|[H|[H|[]]]]]; injection H as <- <- <-; reflexivity.
Qed.

(** Built, the lazypipe of [injectDeviceReadyDetection] is the four stages in
    order. *)
Lemma build_injectDeviceReadyDetection (fs : filesystem) (path : string) (t : fragments) :
  extractTextToInject fs path = Ok t ->
  exists lp stage,
    injectDeviceReadyDetection fs path = Ok lp
    /\ build fs lp = Ok stage
    /\ forall contents, stage contents = inject_fragments t contents.
Proof.
  intros E. unfold injectDeviceReadyDetection. rewrite E. cbn [bind].
  eexists _, _. split; [reflexivity|]. split; [reflexivity|].
  reflexivity.
Qed.

(** C6 (amended).  The stages whose pattern is a regular expression replace
    the first match only: a fragment stage splices its replacement, the
    dollar patterns expanded, at the first occurrence of its literal and
    keeps the text after it as it is; the stage of the base tag removes the
    leftmost match of its pattern and keeps the text before and after it.
    The two stages whose pattern is a string replace every occurrence: the
    placeholder of the script, and the one of the policy, is replaced at its
    first occurrence and again in the whole of the text after it. *)
Theorem regexp_stages_replace_once_string_stages_all :
  (forall t anchor repl stage doc i,
      In (anchor, repl, stage) (fragment_steps t) ->
      indexOf anchor doc = Some i ->
      stage doc
      = take i doc
        ++ GetSubstitution anchor (take i doc) (drop (i + String.length anchor) doc) repl
        ++ drop (i + String.length anchor) doc)
  /\ (forall doc,
         (exec base_regex doc = None /\ strip_base doc = doc)
         \/ exists pre tag post caps,
             doc = pre ++ tag ++ post
             /\ match_here base_regex (tag ++ post) = Some (caps, post)
             /\ (forall n, n < String.length pre ->
                           match_here base_regex (drop n doc) = None)
             /\ strip_base doc = pre ++ post)
  /\ (forall doc i,
         indexOf cordova_script_placeholder doc = Some i ->
         inject_script doc
         = take i doc ++ cordova_script_tag
           ++ inject_script (drop (i + String.length cordova_script_placeholder) doc))
  /\ (forall meta doc i,
         indexOf cordova_csp_placeholder doc = Some i ->
         inject_csp meta doc
         = take i doc ++ meta
           ++ inject_csp meta (drop (i + String.length cordova_csp_placeholder) doc)).
Proof.
  split; [|split; [|split]].
  - intros t anchor repl stage doc i Hin Hi.
    rewrite (fragment_step_is_replace _ _ _ _ Hin).
    cbn [replace]. now rewrite replace_regexp_lit, Hi.
  - intros doc. unfold strip_base. cbn [replace].
    destruct (replace_regexp_once base_regex EmptyString doc)
      as [H|(pre & tag & post & caps & H1 & H2 & H3 & H4)]; [now left | right].
    exists pre, tag, post, caps. now repeat split.
  - intros doc i Hi. unfold inject_script.
    now apply replace_string_some.
  - intros meta doc i Hi. unfold inject_csp.
    now apply replace_string_some.
Qed.

Lemma regexp_stages_replace_once_string_stages_all_witness :
  inject_headStart (Fragments "A" "B" "C" "D") "<head><head>" = "<head>A<head>"
  /\ inject_script "<!-- inject:cordova-script -->;<!-- inject:cordova-script -->"
     = cordova_script_tag ++ ";" ++ cordova_script_tag.
Proof.
  destruct regexp_stages_replace_once_string_stages_all as (Hre & _ & Hstr & _).
  split.
  - rewrite (Hre (Fragments "A" "B" "C" "D") "<head>" "<head>A" _ "<head><head>" 0);
      [reflexivity | simpl; tauto | reflexivity].
  - rewrite (Hstr "<!-- inject:cordova-script -->;<!-- inject:cordova-script -->" 0);
      [|reflexivity].
    cbn [take drop Nat.add String.length cordova_script_placeholder append].
    rewrite (Hstr ";<!-- inject:cordova-script -->" 1); [|reflexivity].
    reflexivity.
Defined.

(** C6, as stated, fails on a document with the placeholder of the script
    twice: both occurrences are replaced, not the first one only. *)
Lemma script_placeholder_replaced_twice :
  inject_script "<!-- inject:cordova-script --><p><!-- inject:cordova-script -->"
  = cordova_script_tag ++ "<p>" ++ cordova_script_tag
  /\ inject_script "<!-- inject:cordova-script --><p><!-- inject:cordova-script -->"
     <> cordova_script_tag ++ "<p><!-- inject:cordova-script -->".
Proof.
  split; [vm_compute; reflexivity | vm_compute; discriminate].
Qed.

(** C10 (amended).  For every document in which the exact literal [<head>]
    does not occur, as when its only head opening tag carries attributes, the
    stage of [headStart] leaves the document unchanged; likewise the stages
    of [headEnd], [bodyStart] and [bodyEnd] for the exact literals [</head>],
    [<body>] and [</body>]. *)
Theorem fragment_stage_needs_exact_literal
        (t : fragments) (anchor repl : string) (stage : stream) (doc : string) :
  In (anchor, repl, stage) (fragment_steps t) ->
  indexOf anchor doc = None ->
  stage doc = doc.
Proof.
  intros Hin Hnone.
  rewrite (fragment_step_is_replace _ _ _ _ Hin).
  cbn [replace]. now rewrite replace_regexp_lit, Hnone.
Qed.

Lemma fragment_stage_needs_exact_literal_witness :
  inject_headStart (Fragments "A" "B" "C" "D")
                   ("<html><head lang=" ++ dq ++ "en" ++ dq ++ "></head><body></body></html>")
  = "<html><head lang=" ++ dq ++ "en" ++ dq ++ "></head><body></body></html>".
Proof.
  apply (fragment_stage_needs_exact_literal
           (Fragments "A" "B" "C" "D") "<head>" "<head>A").
  - simpl. tauto.
  - reflexivity.
Defined.

(** C10, as stated, fails on a document whose first head opening tag carries
    attributes and which holds the exact literal further on: the stage
    inserts the fragment after that literal. *)
Lemma attributed_head_then_literal_head :
  indexOf "<head" ("<head lang=" ++ dq ++ "en" ++ dq ++ "></head><!-- <head> -->") = Some 0
  /\ prefix "<head " ("<head lang=" ++ dq ++ "en" ++ dq ++ "></head><!-- <head> -->") = true
  /\ inject_headStart (Fragments "A" "B" "C" "D")
                      ("<head lang=" ++ dq ++ "en" ++ dq ++ "></head><!-- <head> -->")
     = "<head lang=" ++ dq ++ "en" ++ dq ++ "></head><!-- <head>A -->"
  /\ inject_headStart (Fragments "A" "B" "C" "D")
                      ("<head lang=" ++ dq ++ "en" ++ dq ++ "></head><!-- <head> -->")
     <> "<head lang=" ++ dq ++ "en" ++ dq ++ "></head><!-- <head> -->".
Proof.
  repeat split; try (vm_compute; reflexivity). vm_compute. discriminate.
Qed.

(** C8 (amended).  For the document [<html><head></head><body></body></html>]
    and the fragments A, B, C, D, the four stages produce
    [<html><head>AB</head><body>CD</body></html>]: each fragment is inserted
    once, right after or right before its tag, and nothing is put between two
    fragments. *)
Theorem fragments_in_an_empty_document :
  inject_fragments (Fragments "A" "B" "C" "D") "<html><head></head><body></body></html>"
  = "<html><head>AB</head><body>CD</body></html>".
Proof. vm_compute. reflexivity. Qed.

(** C8, as stated, fails: the output has no space between A and B, nor
    between C and D. *)
Lemma no_space_between_fragments :
  inject_fragments (Fragments "A" "B" "C" "D") "<html><head></head><body></body></html>"
  <> "<html><head>A B</head><body>C D</body></html>".
Proof. vm_compute. discriminate. Qed.

(** ** The base tag *)

Section BaseTag.

Lemma all_chars_cons (cls : ascii -> bool) (c : ascii) (s : string) :
  all_chars cls (String c s) = cls c && all_chars cls s.
Proof. reflexivity. Qed.

Lemma no_closing_on_line_app (w s : string) :
  all_chars space w = true ->
  no_closing_on_line s = true ->
  no_closing_on_line (w ++ s) = true.
Proof.
  intros Hw Hs. induction w as [|c w IH]; [exact Hs|].
  rewrite all_chars_cons in Hw. apply andb_prop in Hw as [Hc Hw].
  unfold space in Hc. apply Ascii.eqb_eq in Hc. subst c.
  cbn [append no_closing_on_line]. now rewrite (IH Hw).
Qed.

Lemma base_tail_needs_quote (s : string) :
  prefix dq s = false -> match_here base_tail s = None.
Proof.
  intros H. unfold base_tail. now rewrite match_here_lit_app, H.
Qed.

Lemma base_tail_matches (sp post : string) :
  all_chars space sp = true ->
  match_here base_tail (dq ++ sp ++ ">" ++ post) = Some ([], post).
Proof.
  intros Hsp. unfold base_tail.
  rewrite match_here_lit_app, prefix_app, drop_app.
  cbn [app match_here].
  rewrite (greedy_skip space (match_here (lit ">")) sp (">" ++ post)
             EmptyString ([], post) Hsp); [reflexivity|].
  now rewrite greedy_stops.
Qed.

(** Without [>] after the spaces, the loop over the spaces fails. *)
Lemma greedy_space_no_gt (s : string) :
  spaces_then_gt s = false ->
  greedy space (match_here (lit ">")) s = None.
Proof.
  induction s as [|c s IH]; intros H; [reflexivity|].
  rewrite greedy_cons. cbn [spaces_then_gt] in H.
  assert (K : Ascii.eqb c ">"%char = false ->
              option_map (pair EmptyString) (match_here (lit ">") (String c s))
              = @None (string * (list string * string))).
  { intros E. cbn [lit match_here]. rewrite Ascii.eqb_sym, E. reflexivity. }
  destruct (space c) eqn:S.
  - rewrite (IH H). apply K.
    unfold space in S. apply Ascii.eqb_eq in S. now subst c.
  - now apply K.
Qed.

(** Where no end of a tag starts, the tail of the pattern fails. *)
Lemma base_tail_needs_closing (s : string) :
  closing_here s = false -> match_here base_tail s = None.
Proof.
  destruct s as [|c s]; [intros _; now apply base_tail_needs_quote|].
  cbn [closing_here]. intros H.
  destruct (quote c) eqn:Q.
  - unfold quote in Q. apply Ascii.eqb_eq in Q. subst c.
    cbn [andb] in H. unfold base_tail.
    change (String "034"%char s) with (dq ++ s).
    rewrite match_here_lit_app, prefix_app, drop_app.
    cbn [app match_here]. now rewrite (greedy_space_no_gt _ H).
  - apply base_tail_needs_quote. unfold dq. rewrite prefix_cons.
    unfold quote in Q. now rewrite Ascii.eqb_sym, Q.
Qed.

(** Over a line on which no end of a tag starts, the dot loop fails. *)
Lemma greedy_dot_no_closing (s : string) :
  no_closing_on_line s = true ->
  greedy dot (match_here base_tail) s = None.
Proof.
  induction s as [|c s IH]; intros H.
  - rewrite greedy_nil. now rewrite base_tail_needs_closing.
  - rewrite greedy_cons. cbn [no_closing_on_line] in H.
    destruct (dot c) eqn:D.
    + apply andb_prop in H as [Hq Hs]. rewrite (IH Hs).
      apply negb_true_iff in Hq. now rewrite (base_tail_needs_closing _ Hq).
    + rewrite base_tail_needs_closing; [reflexivity|].
      cbn [closing_here]. unfold quote.
      destruct (Ascii.eqb_spec c "034"%char) as [->|]; [discriminate D | reflexivity].
Qed.

(** Anchored at the tag, the pattern takes the tag and no more. *)
Lemma match_here_base (sp1 v sp2 post : string) :
  all_chars space sp1 = true ->
  all_chars space sp2 = true ->
  all_chars dot v = true ->
  no_closing_on_line post = true ->
  match_here base_regex
             ("<base" ++ sp1 ++ "href=" ++ dq ++ v ++ dq ++ sp2 ++ ">" ++ post)
  = Some ([], post).
Proof.
  intros H1 H2 Hv Hpost. unfold base_regex.
  rewrite match_here_lit_app, prefix_app, drop_app.
  cbn [app match_here].
  change (lit dq ++ [Star space] ++ lit ">")%list with base_tail.
  set (k := match_here (lit ("href=" ++ dq) ++ Star dot :: base_tail)%list).
  assert (K : k ("href=" ++ dq ++ v ++ dq ++ sp2 ++ ">" ++ post) = Some ([], post)).
  { unfold k. rewrite <- (app_assoc_s "href=" dq).
    rewrite match_here_lit_app, prefix_app, drop_app.
    cbn [match_here].
    rewrite (greedy_skip dot (match_here base_tail) v (dq ++ sp2 ++ ">" ++ post)
               EmptyString ([], post) Hv); [reflexivity|].
    unfold dq at 1. cbn [append]. rewrite greedy_cons.
    replace (dot "034"%char) with true by reflexivity.
    rewrite greedy_dot_no_closing.
    - exact (f_equal (option_map (pair EmptyString)) (base_tail_matches sp2 post H2)).
    - apply no_closing_on_line_app; [exact H2|].
      cbn [append no_closing_on_line]. exact Hpost. }
  rewrite (greedy_skip space k sp1 _ EmptyString ([], post) H1); [reflexivity|].
  rewrite greedy_stops by reflexivity. now rewrite K.
Qed.

(** The search passes the starts at which the pattern fails. *)
Lemma exec_from_skip (re : regex) (pre s : string) (i : nat) :
  (forall n, n < String.length pre -> match_here re (drop n (pre ++ s)) = None) ->
  exec_from re i (pre ++ s) = exec_from re (i + String.length pre) s.
Proof.
  revert i; induction pre as [|c pre IH]; intros i H.
  - cbn [append String.length]. now rewrite Nat.add_0_r.
  - cbn [append]. rewrite exec_from_eq.
    pose proof (H 0 ltac:(simpl; lia)) as H0. cbn [drop append] in H0.
    rewrite H0, IH.
    + cbn [String.length]. f_equal. lia.
    + intros n Hn. apply (H (S n)). simpl. lia.
Qed.

(** The leftmost match removed: what is before it and what is after it
    stay. *)
Lemma strip_base_at_leftmost_match (pre tag post : string) (caps : list string) :
  (forall n, n < String.length pre ->
             match_here base_regex (drop n (pre ++ tag ++ post)) = None) ->
  match_here base_regex (tag ++ post) = Some (caps, post) ->
  strip_base (pre ++ tag ++ post) = pre ++ post.
Proof.
  intros Hleft M.
  unfold strip_base. cbn [replace]. unfold replace_regexp, exec.
  rewrite (exec_from_skip _ _ _ _ Hleft).
  rewrite exec_from_eq, M. cbn [index matched Nat.add GetSubstitution append].
  rewrite length_app, Nat.add_sub, take_app, take_app.
  now rewrite <- length_app, <- app_assoc_s, drop_app.
Qed.

End BaseTag.

(** C7.  On a line that holds a base tag and then another tag with a quoted
    attribute, the stage removes the other tag as well: the greedy dot runs
    to the last quote that spaces and [>] follow on the line.  The output is
    not the document without its base tag. *)
Theorem strip_base_removes_the_next_tag_too :
  strip_base ("<base href=" ++ dq ++ "foo/" ++ dq ++ "><link rel=" ++ dq ++ "x" ++ dq ++ "><p>")
  = "<p>"
  /\ strip_base ("<base href=" ++ dq ++ "foo/" ++ dq ++ "><link rel=" ++ dq ++ "x" ++ dq ++ "><p>")
     <> "<link rel=" ++ dq ++ "x" ++ dq ++ "><p>".
Proof.
  split; [vm_compute; reflexivity | vm_compute; discriminate].
Qed.

(** * Further properties of the module *)

(** ** Extraction *)

Section ExtractionMore.

Lemma indexOf_prefix (p s : string) : prefix p s = true -> indexOf p s = Some 0.
Proof.
  intros H. destruct s; [rewrite indexOf_nil | rewrite indexOf_cons]; now rewrite H.
Qed.

Lemma region_last_delimits (tag text inner : string) :
  delimits tag text inner -> region_last tag text = Some inner.
Proof.
  intros (pre & post & E & Hi & _ & Hl). unfold region_last.
  rewrite Hi. cbv zeta.
  assert (D : drop (String.length pre + String.length (open_tag tag)) text
              = inner ++ close_tag tag ++ post).
  { rewrite E, <- length_app, <- app_assoc_s. apply drop_app. }
  rewrite D, Hl, take_app. reflexivity.
Qed.

End ExtractionMore.

(** X1.  On a template in which, for each of the four tags, the region that
    starts at the first opening tag is closed by the only closing tag after
    it, extraction returns exactly the four inner texts. *)
Theorem extraction_of_single_regions
        (fs : filesystem) (path text hs he bs be : string) :
  fs path = Some text ->
  delimits "head-start" text hs ->
  delimits "head-end" text he ->
  delimits "body-start" text bs ->
  delimits "body-end" text be ->
  extractTextToInject fs path = Ok (Fragments hs he bs be).
Proof.
  intros Hfs H1 H2 H3 H4.
  pose proof (region_last_delimits _ _ _ H1) as E1.
  rewrite (extractTextToInject_regions fs path text Hfs).
  - now rewrite E1, (region_last_delimits _ _ _ H2),
      (region_last_delimits _ _ _ H3), (region_last_delimits _ _ _ H4).
  - intros ->. now rewrite region_last_empty in E1.
Qed.

Lemma extraction_of_single_regions_witness :
  extractTextToInject
    (fun _ => Some "<body-end>Z</body-end> <head-start>A</head-start><body-start></body-start><head-end>E</head-end>")
    "index.html.inject"
  = Ok (Fragments "A" "E" EmptyString "Z").
Proof.
  apply (extraction_of_single_regions
           (fun _ => Some "<body-end>Z</body-end> <head-start>A</head-start><body-start></body-start><head-end>E</head-end>")
           "index.html.inject"
           "<body-end>Z</body-end> <head-start>A</head-start><body-start></body-start><head-end>E</head-end>").
  - reflexivity.
  - exists "<body-end>Z</body-end> ", "<body-start></body-start><head-end>E</head-end>".
    repeat split; reflexivity.
  - exists "<body-end>Z</body-end> <head-start>A</head-start><body-start></body-start>", EmptyString.
    repeat split; reflexivity.
  - exists "<body-end>Z</body-end> <head-start>A</head-start>", "<head-end>E</head-end>".
    repeat split; reflexivity.
  - exists EmptyString, " <head-start>A</head-start><body-start></body-start><head-end>E</head-end>".
    repeat split; reflexivity.
Defined.

(** X2.  Whenever extraction returns fragments, the template has text and
    each fragment stands in it between the opening and the closing tag of its
    name: no fragment is made up. *)
Theorem extraction_returns_delimited_text
        (fs : filesystem) (path : string) (t : fragments) :
  extractTextToInject fs path = Ok t ->
  exists text,
    fs path = Some text
    /\ text <> EmptyString
    /\ occurs_in (open_tag "head-start" ++ headStart t ++ close_tag "head-start") text
    /\ occurs_in (open_tag "head-end" ++ headEnd t ++ close_tag "head-end") text
    /\ occurs_in (open_tag "body-start" ++ bodyStart t ++ close_tag "body-start") text
    /\ occurs_in (open_tag "body-end" ++ bodyEnd t ++ close_tag "body-end") text.
Proof.
  intros H.
  destruct (fs path) as [text|] eqn:Hfs.
  2:{ unfold extractTextToInject, readFileSync in H. rewrite Hfs in H. discriminate H. }
  assert (Hne : text <> EmptyString).
  { intros ->. unfold extractTextToInject, readFileSync in H.
    rewrite Hfs in H. discriminate H. }
  rewrite (extractTextToInject_regions fs path text Hfs Hne) in H.
  assert (S : forall tag inner,
             region_last tag text = Some inner ->
             occurs_in (open_tag tag ++ inner ++ close_tag tag) text).
  { intros tag inner E. destruct (region_last_sound _ _ _ E) as (pre & post & ->).
    exists pre, post. now rewrite !app_assoc_s. }
  destruct (region_last "head-start" text) as [hs|] eqn:E1; [|discriminate H].
  destruct (region_last "head-end" text) as [he|] eqn:E2; [|discriminate H].
  destruct (region_last "body-start" text) as [bs|] eqn:E3; [|discriminate H].
  destruct (region_last "body-end" text) as [be|] eqn:E4; [|discriminate H].
  injection H as <-. exists text. cbn [headStart headEnd bodyStart bodyEnd].
  repeat split; try assumption; now apply S.
Qed.

Lemma extraction_returns_delimited_text_witness :
  exists text,
    Some "<head-start>A</head-start><head-end>B</head-end><body-start>C</body-start><body-end>D</body-end>"
    = Some text
    /\ text <> EmptyString
    /\ occurs_in (open_tag "head-start" ++ "A" ++ close_tag "head-start") text
    /\ occurs_in (open_tag "head-end" ++ "B" ++ close_tag "head-end") text
    /\ occurs_in (open_tag "body-start" ++ "C" ++ close_tag "body-start") text
    /\ occurs_in (open_tag "body-end" ++ "D" ++ close_tag "body-end") text.
Proof.
  apply (extraction_returns_delimited_text
           (fun _ => Some "<head-start>A</head-start><head-end>B</head-end><body-start>C</body-start><body-end>D</body-end>")
           "index.html.inject" (Fragments "A" "B" "C" "D")).
  reflexivity.
Defined.

(** X3.  When the template file is read, the text decides the outcome of
    extraction: the empty text gets the error of a template not found; a
    text that is not empty and lacks a region of one of the four tags gets
    the error of a malformed template; a text with a region of each tag gets
    a fragment set.  The message of either error holds the path. *)
Theorem extraction_outcome_of_read_text
        (fs : filesystem) (path text : string) :
  fs path = Some text ->
  (text = EmptyString
   /\ extractTextToInject fs path = Throw (TemplateNotFoundError path)
   /\ occurs_in path (not_found_message path))
  \/ (text <> EmptyString
      /\ (exists tag, In tag delimiter_tags /\ ~ has_region tag text)
      /\ extractTextToInject fs path = Throw (MalformedTemplateError path)
      /\ occurs_in path (bad_injection_message path))
  \/ (text <> EmptyString
      /\ (forall tag, In tag delimiter_tags -> has_region tag text)
      /\ exists t, extractTextToInject fs path = Ok t).
Proof.
  intros Hfs. destruct text as [|c text].
  - left. split; [reflexivity|]. split.
    + unfold extractTextToInject, readFileSync. now rewrite Hfs.
    + unfold not_found_message. now exists "File ", " not found !".
  - right.
    assert (Hne : String c text <> EmptyString) by discriminate.
    rewrite (extractTextToInject_regions fs path _ Hfs Hne).
    assert (M : forall tag,
               In tag delimiter_tags ->
               region_last tag (String c text) = None ->
               String c text <> EmptyString
               /\ (exists tag, In tag delimiter_tags /\ ~ has_region tag (String c text))
               /\ @Throw fragments (MalformedTemplateError path)
                  = Throw (MalformedTemplateError path)
               /\ occurs_in path (bad_injection_message path)).
    { intros tag Hin N. split; [exact Hne|]. split; [|split].
      - exists tag. split; [exact Hin|].
        intros R. apply has_region_iff in R. now apply R.
      - reflexivity.
      - apply bad_injection_message_names_path. }
    destruct (region_last "head-start" (String c text)) as [hs|] eqn:E1;
      [|left; apply (M "head-start"); [simpl; tauto | exact E1]].
    destruct (region_last "head-end" (String c text)) as [he|] eqn:E2;
      [|left; apply (M "head-end"); [simpl; tauto | exact E2]].
    destruct (region_last "body-start" (String c text)) as [bs|] eqn:E3;
      [|left; apply (M "body-start"); [simpl; tauto | exact E3]].
    destruct (region_last "body-end" (String c text)) as [be|] eqn:E4;
      [|left; apply (M "body-end"); [simpl; tauto | exact E4]].
    right. split; [exact Hne|]. split; [|now exists (Fragments hs he bs be)].
    intros tag [<-|[<-|[<-|[<-|[]]]]]; apply has_region_iff; congruence.
Qed.

Lemma extraction_outcome_of_read_text_witness :
  "<head-start>A</head-start><body-end>D</body-end>" <> EmptyString
  /\ (exists tag, In tag delimiter_tags
                  /\ ~ has_region tag "<head-start>A</head-start><body-end>D</body-end>")
  /\ extractTextToInject (fun _ => Some "<head-start>A</head-start><body-end>D</body-end>")
                         "index.html.inject"
     = Throw (MalformedTemplateError "index.html.inject")
  /\ occurs_in "index.html.inject" (bad_injection_message "index.html.inject").
Proof.
  destruct (extraction_outcome_of_read_text
              (fun _ => Some "<head-start>A</head-start><body-end>D</body-end>")
              "index.html.inject"
              "<head-start>A</head-start><body-end>D</body-end>" eq_refl)
    as [(E & _)|[H|(_ & _ & t & E)]].
  - discriminate E.
  - exact H.
  - discriminate E.
Defined.

(** ** The pipeline *)

Section PipelineMore.

Lemma strip_base_without_base (doc : string) :
  indexOf "<base" doc = None -> strip_base doc = doc.
Proof.
  intros H. unfold strip_base. cbn [replace]. unfold replace_regexp, exec.
  rewrite exec_from_none; [reflexivity|].
  intros n. unfold base_regex.
  now rewrite match_here_lit_app, (indexOf_none _ _ H n).
Qed.

Lemma indexOf_app_first (p x y : string) :
  indexOf p (x ++ p) = Some (String.length x) ->
  indexOf p (x ++ p ++ y) = Some (String.length x).
Proof.
  induction x as [|c x IH]; cbn [append String.length].
  - intros _. apply indexOf_prefix, prefix_app.
  - rewrite !indexOf_cons.
    assert (E : prefix p (String c (x ++ p ++ y)) = prefix p (String c (x ++ p))).
    { rewrite <- (app_assoc_s x p y).
      change (String c ((x ++ p) ++ y)) with (String c (x ++ p) ++ y).
      apply prefix_app_long. cbn [String.length]. rewrite length_app. lia. }
    rewrite E. destruct (prefix p (String c (x ++ p))); [discriminate|].
    destruct (indexOf p (x ++ p)) as [j|]; [|discriminate].
    cbn [option_map]. intros [= ->]. now rewrite IH.
Qed.

Lemma plain_app (x y : string) : plain (x ++ y) = plain x && plain y.
Proof.
  unfold plain, all_chars. induction x as [|c x IH]; [reflexivity|].
  cbn [append list_ascii_of_string forallb]. now rewrite IH, andb_assoc.
Qed.

(** A literal pattern and a replacement without a dollar: the replacement
    stands where the first occurrence of the literal stood. *)
Lemma replace_lit_at (p repl x y : string) :
  indexOf p (x ++ p) = Some (String.length x) ->
  plain repl = true ->
  replace (PRegExp (lit p)) repl (x ++ p ++ y) = x ++ repl ++ y.
Proof.
  intros Hi Hr. cbn [replace].
  rewrite replace_regexp_lit, (indexOf_app_first _ _ _ Hi), take_app.
  assert (D : drop (String.length x + String.length p) (x ++ p ++ y) = y).
  { rewrite <- length_app, <- (app_assoc_s x p y). apply drop_app. }
  rewrite D. now rewrite (GetSubstitution_plain _ _ _ _ Hr).
Qed.

End PipelineMore.

(** X4.  Where extraction succeeds, the lazypipe returned by [injectIndex]
    builds, and the stage built applies, in this order, the four fragment
    stages, the removal of the base tag, the replacement of the script
    placeholder and the replacement of the policy placeholder by the tag
    composed from the options, the source being [index.html] when the
    options have none. *)
Theorem injectIndex_builds_pipeline
        (fs : filesystem) (path : string) (o : options) (t : fragments) :
  extractTextToInject fs path = Ok t ->
  exists lp stage,
    injectIndex path (Some o) = Ok lp
    /\ build fs lp = Ok stage
    /\ forall doc,
        stage doc
        = pipeline t (createMetaCsp (source_or_default o)
                                    (connectSrc o) (defaultSrc o) (frameSrc o)) doc.
Proof.
  intros E. unfold injectIndex. cbn [bind].
  eexists. eexists. split; [reflexivity|].
  cbn [build pure_step bind]. unfold injectDeviceReadyDetection.
  rewrite E. cbn [build pure_step bind]. split; reflexivity.
Qed.

Lemma injectIndex_builds_pipeline_witness :
  exists lp stage,
    injectIndex "index.html.inject" (Some (Options None None None (Some "http://localhost:8080")))
    = Ok lp
    /\ build (fun _ => Some "<head-start>A</head-start><head-end>B</head-end><body-start>C</body-start><body-end>D</body-end>")
             lp
       = Ok stage
    /\ forall doc,
        stage doc
        = pipeline (Fragments "A" "B" "C" "D")
                   (createMetaCsp (source_or_default (Options None None None (Some "http://localhost:8080")))
                                  None None None) doc.
Proof.
  apply (injectIndex_builds_pipeline
           (fun _ => Some "<head-start>A</head-start><head-end>B</head-end><body-start>C</body-start><body-end>D</body-end>")
           "index.html.inject"
           (Options None None None (Some "http://localhost:8080"))
           (Fragments "A" "B" "C" "D")).
  reflexivity.
Defined.

(** X5.  A document that holds none of the seven anchors (the four exact
    literals of the head and body tags, [<base], the two placeholders) goes
    through the stages unchanged: a missing anchor is no error. *)
Theorem pipeline_without_anchor (t : fragments) (meta doc : string) :
  indexOf "<head>" doc = None ->
  indexOf "</head>" doc = None ->
  indexOf "<body>" doc = None ->
  indexOf "</body>" doc = None ->
  indexOf "<base" doc = None ->
  indexOf cordova_script_placeholder doc = None ->
  indexOf cordova_csp_placeholder doc = None ->
  pipeline t meta doc = doc.
Proof.
  intros H1 H2 H3 H4 H5 H6 H7.
  unfold pipeline, inject_fragments.
  assert (F : forall p repl, indexOf p doc = None ->
                             replace (PRegExp (lit p)) repl doc = doc).
  { intros p repl H. cbn [replace]. now rewrite replace_regexp_lit, H. }
  unfold inject_headStart, inject_headEnd, inject_bodyStart, inject_bodyEnd.
  rewrite (F _ _ H1), (F _ _ H2), (F _ _ H3), (F _ _ H4).
  rewrite (strip_base_without_base _ H5).
  unfold inject_script, inject_csp.
  now rewrite (replace_string_none _ _ _ H6), (replace_string_none _ _ _ H7).
Qed.

Lemma pipeline_without_anchor_witness :
  pipeline (Fragments "A" "B" "C" "D") "<meta/>"
           "<html><HEAD></HEAD><body class=x></body ></html>"
  = "<html><HEAD></HEAD><body class=x></body ></html>".
Proof.
  apply pipeline_without_anchor; reflexivity.
Defined.

(** X6.  On a document with a head and a body, each anchor being the first
    occurrence of its literal in the text as the earlier stages left it, and
    the fragments holding no dollar, the four fragment stages put [headStart]
    right after [<head>], [headEnd] right before [</head>], [bodyStart] right
    after [<body>] and [bodyEnd] right before [</body>], and change nothing
    else. *)
Theorem fragments_in_a_document (t : fragments) (a b c d e : string) :
  plain (headStart t) = true ->
  plain (headEnd t) = true ->
  plain (bodyStart t) = true ->
  plain (bodyEnd t) = true ->
  indexOf "<head>" (a ++ "<head>") = Some (String.length a) ->
  indexOf "</head>" (a ++ "<head>" ++ headStart t ++ b ++ "</head>")
  = Some (String.length (a ++ "<head>" ++ headStart t ++ b)) ->
  indexOf "<body>"
          (a ++ "<head>" ++ headStart t ++ b ++ headEnd t ++ "</head>" ++ c ++ "<body>")
  = Some (String.length
            (a ++ "<head>" ++ headStart t ++ b ++ headEnd t ++ "</head>" ++ c)) ->
  indexOf "</body>"
          (a ++ "<head>" ++ headStart t ++ b ++ headEnd t ++ "</head>" ++ c
             ++ "<body>" ++ bodyStart t ++ d ++ "</body>")
  = Some (String.length
            (a ++ "<head>" ++ headStart t ++ b ++ headEnd t ++ "</head>" ++ c
               ++ "<body>" ++ bodyStart t ++ d)) ->
  inject_fragments t (a ++ "<head>" ++ b ++ "</head>" ++ c ++ "<body>" ++ d ++ "</body>" ++ e)
  = a ++ "<head>" ++ headStart t ++ b ++ headEnd t ++ "</head>" ++ c
      ++ "<body>" ++ bodyStart t ++ d ++ bodyEnd t ++ "</body>" ++ e.
Proof.
  intros P1 P2 P3 P4 H1 H2 H3 H4.
  unfold inject_fragments, inject_headStart, inject_headEnd, inject_bodyStart,
    inject_bodyEnd.
  set (hs := headStart t) in *. set (he := headEnd t) in *.
  set (bs := bodyStart t) in *. set (be := bodyEnd t) in *.
  (* the stage of headStart *)
  rewrite (replace_lit_at "<head>" ("<head>" ++ hs) a _ H1)
    by (rewrite plain_app, P1; reflexivity).
  (* the stage of headEnd *)
  set (x2 := a ++ "<head>" ++ hs ++ b).
  replace (a ++ ("<head>" ++ hs) ++ b ++ "</head>" ++ c ++ "<body>" ++ d ++ "</body>" ++ e)
    with (x2 ++ "</head>" ++ c ++ "<body>" ++ d ++ "</body>" ++ e)
    by (unfold x2; now rewrite !app_assoc_s).
  rewrite (replace_lit_at "</head>" (he ++ "</head>") x2).
  2:{ unfold x2. now rewrite !app_assoc_s. }
  2:{ rewrite plain_app, P2. reflexivity. }
  (* the stage of bodyStart *)
  set (x3 := a ++ "<head>" ++ hs ++ b ++ he ++ "</head>" ++ c).
  replace (x2 ++ (he ++ "</head>") ++ c ++ "<body>" ++ d ++ "</body>" ++ e)
    with (x3 ++ "<body>" ++ d ++ "</body>" ++ e)
    by (unfold x2, x3; now rewrite !app_assoc_s).
  rewrite (replace_lit_at "<body>" ("<body>" ++ bs) x3).
  2:{ unfold x3. now rewrite !app_assoc_s. }
  2:{ rewrite plain_app, P3. reflexivity. }
  (* the stage of bodyEnd *)
  set (x4 := a ++ "<head>" ++ hs ++ b ++ he ++ "</head>" ++ c ++ "<body>" ++ bs ++ d).
  replace (x3 ++ ("<body>" ++ bs) ++ d ++ "</body>" ++ e)
    with (x4 ++ "</body>" ++ e)
    by (unfold x3, x4; now rewrite !app_assoc_s).
  rewrite (replace_lit_at "</body>" (be ++ "</body>") x4).
  2:{ unfold x4. now rewrite !app_assoc_s. }
  2:{ rewrite plain_app, P4. reflexivity. }
  unfold x4. now rewrite !app_assoc_s.
Qed.

Lemma fragments_in_a_document_witness :
  inject_fragments (Fragments "<script>a()</script>" "<style></style>" "<div>" "</div>")
                   ("<html>" ++ "<head>" ++ "<title>t</title>" ++ "</head>" ++ EmptyString
                    ++ "<body>" ++ "<p>x</p>" ++ "</body>" ++ "</html>")
  = "<html>" ++ "<head>" ++ "<script>a()</script>" ++ "<title>t</title>"
    ++ "<style></style>" ++ "</head>" ++ EmptyString
    ++ "<body>" ++ "<div>" ++ "<p>x</p>" ++ "</div>" ++ "</body>" ++ "</html>".
Proof.
  apply (fragments_in_a_document
           (Fragments "<script>a()</script>" "<style></style>" "<div>" "</div>")
           "<html>" "<title>t</title>" EmptyString "<p>x</p>" "</html>");
    reflexivity.
Defined.

(** ** The base tag, again *)

Section BaseShape.

(** What the pattern of the base tag matches. *)
Lemma match_here_base_shape (s : string) (caps : list string) (r : string) :
  match_here base_regex s = Some (caps, r) ->
  exists sp1 v sp2,
    s = ("<base" ++ sp1 ++ "href=" ++ dq ++ v ++ dq ++ sp2 ++ ">") ++ r
    /\ all_chars space sp1 = true
    /\ all_chars dot v = true
    /\ all_chars space sp2 = true.
Proof.
  unfold base_regex. rewrite match_here_lit_app.
  destruct (prefix "<base" s) eqn:P0; [|discriminate].
  apply prefix_split in P0. cbn [app match_here].
  destruct (greedy space _ _) as [[sp1 [caps1 r1]]|] eqn:G1; [|discriminate].
  cbn [option_map snd]. intros [= <- <-].
  destruct (greedy_sound _ _ _ _ _ G1) as (A1 & x1 & E1 & K1). clear G1.
  rewrite match_here_lit_app in K1.
  destruct (prefix ("href=" ++ dq) x1) eqn:P1; [|discriminate].
  apply prefix_split in P1. cbn [app match_here] in K1.
  destruct (greedy dot _ _) as [[v [caps2 r2]]|] eqn:G2; [|discriminate].
  cbn [option_map snd] in K1. injection K1 as <- <-.
  destruct (greedy_sound _ _ _ _ _ G2) as (A2 & x2 & E2 & K2). clear G2.
  rewrite match_here_lit_app in K2.
  destruct (prefix dq x2) eqn:P2; [|discriminate].
  apply prefix_split in P2. cbn [app match_here] in K2.
  destruct (greedy space _ _) as [[sp2 [caps3 r3]]|] eqn:G3; [|discriminate].
  cbn [option_map snd] in K2. injection K2 as <- <-.
  destruct (greedy_sound _ _ _ _ _ G3) as (A3 & x3 & E3 & K3). clear G3.
  rewrite match_here_lit in K3.
  destruct (prefix ">" x3) eqn:P3; [|discriminate].
  apply prefix_split in P3. injection K3 as <- <-.
  exists sp1, v, sp2. repeat split; try assumption.
  rewrite P0, E1, P1, E2, P2, E3, P3. now rewrite !app_assoc_s.
Qed.

End BaseShape.

(** X7.  The stage of the base tag leaves the document as it is or removes
    from it one piece of text, which is [<base], spaces, [href=], a quote, a
    text without a line terminator, a quote, spaces and [>]: nothing is
    removed across a line break, and nothing that does not have this
    shape. *)
Theorem strip_base_removes_a_base_tag_or_nothing (doc : string) :
  strip_base doc = doc
  \/ exists pre sp1 v sp2 post,
      doc = pre ++ ("<base" ++ sp1 ++ "href=" ++ dq ++ v ++ dq ++ sp2 ++ ">") ++ post
      /\ all_chars space sp1 = true
      /\ all_chars dot v = true
      /\ all_chars space sp2 = true
      /\ strip_base doc = pre ++ post.
Proof.
  unfold strip_base. cbn [replace].
  destruct (replace_regexp_once base_regex EmptyString doc)
    as [[_ H]|(pre & m & post & caps & E & M & _ & R)]; [now left | right].
  destruct (match_here_base_shape _ _ _ M) as (sp1 & v & sp2 & Es & A1 & A2 & A3).
  exists pre, sp1, v, sp2, post.
  split; [now rewrite E, Es|]. repeat split; assumption.
Qed.

(** X12.  Where the pattern of the base tag matches at no earlier position
    of the document, the tag is [<base], spaces, [href=], a quoted value
    without a line terminator, spaces and [>], and no quote followed by
    spaces and [>] starts after the tag on its line, the stage removes
    exactly this tag and leaves the rest of the document unchanged: an
    earlier [<base] that opens no such tag, and quotes further on the line,
    do not matter. *)
Theorem strip_base_removes_exactly_the_tag (pre sp1 v sp2 post : string) :
  (forall n, n < String.length pre ->
             match_here base_regex
                        (drop n (pre ++ ("<base" ++ sp1 ++ "href=" ++ dq ++ v ++ dq
                                           ++ sp2 ++ ">") ++ post)) = None) ->
  all_chars space sp1 = true ->
  all_chars space sp2 = true ->
  all_chars dot v = true ->
  no_closing_on_line post = true ->
  strip_base (pre ++ ("<base" ++ sp1 ++ "href=" ++ dq ++ v ++ dq ++ sp2 ++ ">") ++ post)
  = pre ++ post.
Proof.
  intros Hleft H1 H2 Hv Hpost.
  apply (strip_base_at_leftmost_match _ _ _ [] Hleft).
  rewrite !app_assoc_s. cbn [append].
  now apply (match_here_base sp1 v sp2 post).
Qed.

Lemma strip_base_removes_exactly_the_tag_witness :
  strip_base (("<!-- <base> --><base target=" ++ dq ++ "x" ++ dq ++ ">")
              ++ ("<base" ++ " " ++ "href=" ++ dq ++ "/" ++ dq ++ EmptyString ++ ">")
              ++ (" say " ++ dq ++ "hi" ++ dq ++ "<link rel=" ++ dq ++ "stylesheet" ++ dq
                  ++ " href=" ++ dq ++ "a.css" ++ dq ++ " />"))
  = ("<!-- <base> --><base target=" ++ dq ++ "x" ++ dq ++ ">")
    ++ (" say " ++ dq ++ "hi" ++ dq ++ "<link rel=" ++ dq ++ "stylesheet" ++ dq
        ++ " href=" ++ dq ++ "a.css" ++ dq ++ " />").
Proof.
  apply (strip_base_removes_exactly_the_tag
           ("<!-- <base> --><base target=" ++ dq ++ "x" ++ dq ++ ">") " " "/" EmptyString
           (" say " ++ dq ++ "hi" ++ dq ++ "<link rel=" ++ dq ++ "stylesheet" ++ dq
            ++ " href=" ++ dq ++ "a.css" ++ dq ++ " />")).
  - intros n Hn.
    do 32 (destruct n as [|n]; [vm_compute; reflexivity|]).
    vm_compute in Hn. lia.
  - reflexivity.
  - reflexivity.
  - reflexivity.
  - reflexivity.
Defined.

(** ** The script placeholder *)

Section ScriptPlaceholder.

Lemma indexOf_none_intro (p s : string) :
  (forall m, prefix p (drop m s) = false) -> indexOf p s = None.
Proof.
  induction s as [|c s IH]; intros H.
  - rewrite indexOf_nil. pose proof (H 0) as H0. cbn [drop] in H0. now rewrite H0.
  - rewrite indexOf_cons. pose proof (H 0) as H0. cbn [drop] in H0. rewrite H0.
    rewrite IH; [reflexivity|]. intros m. apply (H (S m)).
Qed.

Lemma length_take_le (n : nat) (s : string) : String.length (take n s) <= n.
Proof.
  revert s; induction n as [|n IH]; intros [|c s]; simpl; try lia.
  specialize (IH s). lia.
Qed.

(** Where a pattern matches over the end of [b], its character at the length
    of [b] is the next character. *)
Lemma prefix_char_at (p b : string) (c : ascii) (y : string) :
  prefix p (b ++ String c y) = true ->
  String.length b < String.length p ->
  String.get (String.length b) p = Some c.
Proof.
  revert p; induction b as [|b0 b IH]; intros [|p0 p] H L;
    cbn [String.length] in L; try lia.
  - cbn [append] in H. rewrite prefix_cons in H.
    apply andb_prop in H as [H _]. apply Ascii.eqb_eq in H. now subst.
  - cbn [append] in H. rewrite prefix_cons in H.
    apply andb_prop in H as [_ H]. cbn [String.length String.get].
    apply IH; [exact H | lia].
Qed.

(** The placeholder has its only [<] at its head. *)
Lemma placeholder_lt_at_head (k : nat) :
  1 <= k -> String.get k cordova_script_placeholder <> Some "<"%char.
Proof.
  intros H.
  do 31 (destruct k as [|k]; [try lia; vm_compute; discriminate|]).
  vm_compute. discriminate.
Qed.

(** The placeholder starts at no position of the tag. *)
Lemma placeholder_not_in_tag (q : nat) (o : string) :
  q < String.length cordova_script_tag ->
  prefix cordova_script_placeholder (drop q cordova_script_tag ++ o) = false.
Proof.
  intros H.
  do 40 (destruct q as [|q]; [vm_compute; reflexivity|]).
  vm_compute in H. lia.
Qed.

Lemma no_new_placeholder (a rest o : string) :
  (forall m, m < String.length a ->
             prefix cordova_script_placeholder
                    (drop m (a ++ cordova_script_placeholder ++ rest)) = false) ->
  indexOf cordova_script_placeholder o = None ->
  indexOf cordova_script_placeholder (a ++ cordova_script_tag ++ o) = None.
Proof.
  intros Ha Ho. apply indexOf_none_intro. intros m.
  destruct (Nat.lt_ge_cases m (String.length a)) as [L|G].
  - specialize (Ha m L). rewrite drop_app_le in Ha |- * by lia.
    assert (Lb : 1 <= String.length (drop m a)) by (rewrite length_drop; lia).
    destruct (Nat.le_gt_cases (String.length cordova_script_placeholder)
                              (String.length (drop m a))) as [Long|Short].
    + rewrite prefix_app_long in Ha |- * by exact Long. exact Ha.
    + destruct (prefix _ (drop m a ++ cordova_script_tag ++ o)) eqn:E; [|reflexivity].
      exfalso.
      change (cordova_script_tag ++ o)
        with (String "<"%char (drop 1 cordova_script_tag ++ o)) in E.
      apply prefix_char_at in E; [|exact Short].
      now apply (placeholder_lt_at_head _ Lb).
  - replace m with (String.length a + (m - String.length a)) by lia.
    rewrite <- drop_drop, drop_app.
    destruct (Nat.lt_ge_cases (m - String.length a) (String.length cordova_script_tag))
      as [L|G'].
    + rewrite drop_app_le by lia. now apply placeholder_not_in_tag.
    + replace (m - String.length a)
        with (String.length cordova_script_tag
              + (m - String.length a - String.length cordova_script_tag)) by lia.
      rewrite <- drop_drop, drop_app. now apply indexOf_none.
Qed.

Lemma inject_script_clears (n : nat) :
  forall doc, String.length doc <= n ->
              indexOf cordova_script_placeholder (inject_script doc) = None.
Proof.
  induction n as [|n IH]; intros doc L;
    destruct (indexOf cordova_script_placeholder doc) as [i|] eqn:E;
    try (unfold inject_script; now rewrite (replace_string_none _ _ _ E)).
  - pose proof (indexOf_split _ _ _ E) as S.
    apply (f_equal String.length) in S. rewrite !length_app in S.
    vm_compute (String.length cordova_script_placeholder) in S. lia.
  - pose proof (indexOf_split _ _ _ E) as S.
    unfold inject_script.
    rewrite (replace_string_some _ _ _ i) by (discriminate || exact E).
    apply (no_new_placeholder _ (drop (i + String.length cordova_script_placeholder) doc)).
    + intros m Hm. rewrite <- S. apply (indexOf_earlier _ _ _ E).
      pose proof (length_take_le i doc). lia.
    + apply IH. rewrite length_drop.
      apply (f_equal String.length) in S. rewrite !length_app in S.
      vm_compute (String.length cordova_script_placeholder) in S |- *. lia.
Qed.

End ScriptPlaceholder.

(** X8.  After the stage of the script placeholder no placeholder is left in
    the document: every occurrence is replaced, and the tag put in its place
    forms no new occurrence with the text around it. *)
Theorem inject_script_leaves_no_placeholder (doc : string) :
  indexOf cordova_script_placeholder (inject_script doc) = None.
Proof. apply (inject_script_clears (String.length doc)). lia. Qed.

(** ** What reaches the output as it is *)

Section Verbatim.

Lemma occurs_in_app_l (e x s : string) : occurs_in e s -> occurs_in e (x ++ s).
Proof. intros (a & b & ->). exists (x ++ a), b. now rewrite app_assoc_s. Qed.

Lemma occurs_in_app_r (e s y : string) : occurs_in e s -> occurs_in e (s ++ y).
Proof. intros (a & b & ->). exists a, (b ++ y). now rewrite !app_assoc_s. Qed.

Lemma occurs_in_refl (e : string) : occurs_in e e.
Proof. exists EmptyString, EmptyString. now rewrite app_empty_r. Qed.

Lemma occurs_in_trans (e s u : string) :
  occurs_in e s -> occurs_in s u -> occurs_in e u.
Proof.
  intros (a & b & ->) (a' & b' & ->). exists (a' ++ a), (b ++ b').
  now rewrite !app_assoc_s.
Qed.

Lemma occurs_in_join (sep e : string) (l : list string) :
  In e l -> occurs_in e (join sep l).
Proof.
  induction l as [|x l IH]; [intros []|].
  intros [->|H].
  - destruct l as [|y l]; [apply occurs_in_refl|].
    rewrite join_cons. apply occurs_in_app_r, occurs_in_refl.
  - destruct l as [|y l]; [destruct H|].
    rewrite join_cons. now apply occurs_in_app_l, occurs_in_app_l, IH.
Qed.

Lemma createMetaCsp_holds_rule (source : string)
      (connectSrc defaultSrc frameSrc : option (list string)) (key : string) :
  In key (keys (cspRules source connectSrc defaultSrc frameSrc)) ->
  occurs_in (get (cspRules source connectSrc defaultSrc frameSrc) key)
            (createMetaCsp source connectSrc defaultSrc frameSrc).
Proof.
  intros H. unfold createMetaCsp.
  do 6 apply occurs_in_app_l. apply occurs_in_app_r.
  apply (occurs_in_trans _ (key ++ " " ++ get (cspRules source connectSrc defaultSrc frameSrc) key)).
  - do 2 apply occurs_in_app_l. apply occurs_in_refl.
  - apply occurs_in_join.
    apply (in_map (fun key => key ++ " " ++ get (cspRules source connectSrc defaultSrc frameSrc) key)).
    exact H.
Qed.

Lemma GetSubstitution_app_plain (m b a x r : string) :
  plain x = true ->
  GetSubstitution m b a (x ++ r) = x ++ GetSubstitution m b a r.
Proof.
  unfold plain, all_chars. induction x as [|c x IH]; [reflexivity|].
  cbn [list_ascii_of_string forallb]. intros H.
  apply andb_prop in H as [Hc Hx]. apply negb_true_iff in Hc.
  cbn [append GetSubstitution]. rewrite Hc, (IH Hx). reflexivity.
Qed.

End Verbatim.

(** X9.  Every entry of the caller's lists [connectSrc], [defaultSrc] and
    [frameSrc] stands in the composed tag as it was given: the entries are
    neither escaped nor checked. *)
Theorem createMetaCsp_holds_entries
        (source : string) (connectSrc defaultSrc frameSrc : option (list string))
        (entry : string) :
  In entry (or_empty connectSrc ++ or_empty defaultSrc ++ or_empty frameSrc)%list ->
  occurs_in entry (createMetaCsp source connectSrc defaultSrc frameSrc).
Proof.
  intros H. apply in_app_or in H as [H|H]; [|apply in_app_or in H as [H|H]].
  - apply occurs_in_trans
      with (s := get (cspRules source connectSrc defaultSrc frameSrc) "connect-src").
    + unfold cspRules. cbn [get String.eqb Ascii.eqb Bool.eqb app].
      apply occurs_in_join. now right; right.
    + apply createMetaCsp_holds_rule. unfold cspRules, keys. simpl. tauto.
  - apply occurs_in_trans
      with (s := get (cspRules source connectSrc defaultSrc frameSrc) "default-src").
    + unfold cspRules. cbn [get String.eqb Ascii.eqb Bool.eqb app].
      apply occurs_in_app_l. apply occurs_in_join. now right; right; right.
    + apply createMetaCsp_holds_rule. unfold cspRules, keys. simpl. tauto.
  - apply occurs_in_trans
      with (s := get (cspRules source connectSrc defaultSrc frameSrc) "frame-src").
    + unfold cspRules. cbn [get String.eqb Ascii.eqb Bool.eqb app].
      apply occurs_in_join. now right.
    + apply createMetaCsp_holds_rule. unfold cspRules, keys. simpl. tauto.
Qed.

Lemma createMetaCsp_holds_entries_witness :
  occurs_in "https://api.example.com/?q=<x>"
            (createMetaCsp "index.html" (Some ["https://api.example.com/?q=<x>"]) None None).
Proof.
  apply createMetaCsp_holds_entries. simpl. tauto.
Defined.

(** X10.  A dollar pattern in the replacement of a fragment stage is not
    copied but expanded: for a replacement with one pattern, [$$] gives a
    dollar, [$&] the literal matched, [$`] the document before the match and
    [$'] the document after it. *)
Theorem fragment_stage_expands_dollar
        (t : fragments) (anchor repl : string) (stage : stream)
        (doc : string) (i : nat) (x y c e : string) :
  In (anchor, repl, stage) (fragment_steps t) ->
  indexOf anchor doc = Some i ->
  repl = x ++ "$" ++ c ++ y ->
  plain x = true ->
  plain y = true ->
  In (c, e) [("$", "$"); ("&", anchor); ("`", take i doc);
             ("'", drop (i + String.length anchor) doc)] ->
  stage doc = take i doc ++ x ++ e ++ y ++ drop (i + String.length anchor) doc.
Proof.
  intros Hin Hi -> Px Py Hc.
  rewrite (fragment_step_is_replace _ _ _ _ Hin). cbn [replace].
  rewrite replace_regexp_lit, Hi. f_equal.
  rewrite (GetSubstitution_app_plain _ _ _ _ _ Px), app_assoc_s. f_equal.
  assert (G : GetSubstitution anchor (take i doc)
                              (drop (i + String.length anchor) doc) ("$" ++ c ++ y)
              = e ++ y).
  { destruct Hc as [H|[H|[H|[H|[]]]]]; injection H as <- <-;
      cbn [append GetSubstitution Ascii.eqb Bool.eqb];
      now rewrite (GetSubstitution_plain _ _ _ _ Py). }
  now rewrite G, app_assoc_s.
Qed.

Lemma fragment_stage_expands_dollar_witness :
  inject_headStart (Fragments "a$'b" "B" "C" "D") "<html><head><title>t</title>"
  = take 6 "<html><head><title>t</title>" ++ "<head>a"
    ++ "<title>t</title>" ++ "b" ++ drop (6 + String.length "<head>") "<html><head><title>t</title>".
Proof.
  apply (fragment_stage_expands_dollar
           (Fragments "a$'b" "B" "C" "D") "<head>" "<head>a$'b" _
           "<html><head><title>t</title>" 6 "<head>a" "b" "'" "<title>t</title>").
  - simpl. tauto.
  - reflexivity.
  - reflexivity.
  - reflexivity.
  - reflexivity.
  - simpl. tauto.
Defined.

(** X11.  Whatever error extraction throws, building the lazypipe returned
    by [injectIndex] throws the same error: with a missing, an empty or a
    malformed template no stage is built. *)
Theorem build_fails_as_extraction_does
        (fs : filesystem) (path : string) (o : options) (e : exn) :
  extractTextToInject fs path = Throw e ->
  exists lp,
    injectIndex path (Some o) = Ok lp
    /\ build fs lp = Throw e
    /\ forall stage, build fs lp <> Ok stage.
Proof.
  intros E. destruct (injectIndex_returns path o) as (lp & Hlp).
  exists lp. split; [exact Hlp|].
  pose proof (build_injectIndex_throws path fs o lp e Hlp E) as B.
  split; [exact B|]. intros stage. rewrite B. discriminate.
Qed.

Lemma build_fails_as_extraction_does_witness :
  exists lp,
    injectIndex "index.html.inject" (Some (Options None None None None)) = Ok lp
    /\ build (fun _ => Some "<head-start>A</head-start>") lp
       = Throw (MalformedTemplateError "index.html.inject")
    /\ forall stage, build (fun _ => Some "<head-start>A</head-start>") lp <> Ok stage.
Proof.
  apply (build_fails_as_extraction_does
           (fun _ => Some "<head-start>A</head-start>") "index.html.inject").
  reflexivity.
Defined.
